(** * Bird_classification: the training loop of [train.py]

    A shallow embedding of [accuracy], [pass_epoch] and [train] from
    [src/train.py], and the properties of the epoch loop, the top-k accuracy
    and the checkpoint policy.

    Numbers.  Tensor entries and Python floats are modelled by their
    rational values, extended with the IEEE special values where the code
    can observe them ([math.inf] in [train], non-finite gradients in
    [pass_epoch]).  [accuracy] is given twice: with the exact product of the
    count and [100 / batch_size], which is what the epoch loop and the
    orchestrator are stated over, and as [accuracy_float32], with the
    roundings of line 151 (a binary64 quotient, converted to binary32 and
    multiplied in binary32), which is what the values [accuracy] returns are
    stated over.

    Effects.  Python exceptions are the [Raise] results of [result]; the
    objects the code mutates (model, optimizer, scaler, standard output,
    files, the summary writer) are threaded explicitly. *)

From Stdlib Require Import String Ascii.
From Stdlib Require Import List ZArith QArith Qreduction Qround Qpower Bool Lia Lqa.
From Stdlib Require Import Permutation Sorted FinFun DecimalString SpecFloat.
Import ListNotations.

(** ** Python run-time: exceptions, [max], slices, true division *)

Module Py.

Inductive exn : Type :=
| RuntimeError (msg : string)
| ValueError (msg : string)
| ZeroDivisionError
| IndexError
| UnboundLocalError (name : string).

Inductive result (A : Type) : Type :=
| Ok (a : A)
| Raise (e : exn).

Arguments Ok {A} a.
Arguments Raise {A} e.

Definition bind {A B} (r : result A) (k : A -> result B) : result B :=
  match r with
  | Ok a => k a
  | Raise e => Raise e
  end.

Definition is_ok {A} (r : result A) : bool :=
  match r with Ok _ => true | Raise _ => false end.

(** [for k in ks: res.append(f k)], stopping at the first exception. *)
Fixpoint for_each {A B} (f : A -> result B) (ks : list A) : result (list B) :=
  match ks with
  | [] => Ok []
  | k :: ks' =>
      bind (f k) (fun r => bind (for_each f ks') (fun rs => Ok (r :: rs)))
  end.

(** [max(t)] of a tuple of ints. *)
Definition max (ks : list Z) : result Z :=
  match ks with
  | [] => Raise (ValueError "max() arg is an empty sequence")
  | k :: ks' => Ok (fold_left Z.max ks' k)
  end.

(** [l[:k]]: a negative bound counts from the end. *)
Definition slice_to {A} (k : Z) (l : list A) : list A :=
  if (k <? 0)%Z
  then firstn (Z.to_nat (Z.of_nat (length l) + k)) l
  else firstn (Z.to_nat k) l.

(** [x / n] for a float [x] and an int [n]. *)
Definition truediv (x : Q) (n : nat) : result Q :=
  match n with
  | O => Raise ZeroDivisionError
  | S _ => Ok (x / inject_Z (Z.of_nat n))
  end.

(** [l[i]] for a list. *)
Definition getitem {A} (l : list A) (i : nat) : result A :=
  match nth_error l i with
  | Some a => Ok a
  | None => Raise IndexError
  end.

(** [str(n)] and the format [{:04d}] for a non-negative [n]. *)
Definition str (n : nat) : string :=
  NilZero.string_of_uint (Nat.to_uint n).

Definition str_int (z : Z) : string :=
  NilZero.string_of_int (Z.to_int z).

Fixpoint zeros (n : nat) : string :=
  match n with
  | O => EmptyString
  | S n' => String "0" (zeros n')
  end.

Definition fmt_04d (n : nat) : string :=
  let s := str n in
  (zeros (4 - String.length s) ++ s)%string.

End Py.

Import Py.

Notation "x <- c1 ;; c2" := (Py.bind c1 (fun x => c2))
  (at level 61, c1 at next level, right associativity).

(** ** Tensors of class scores and the torch operations [accuracy] uses *)

Module Torch.

(** A 2-D tensor of shape (batch, n_classes); every row of a tensor has
    [n_classes] entries ([wf]). *)
Record scores : Type := mkScores {
  n_classes : nat;
  rows : list (list Q)
}.

Definition wf (s : scores) : Prop :=
  Forall (fun r => length r = n_classes s) (rows s).

(** Ranking of one row: class indices by descending score (section 4.1).
    How torch orders equal scores is not specified; here they keep the order
    of their indices. *)
Fixpoint insert_desc (x : Z * Q) (l : list (Z * Q)) : list (Z * Q) :=
  match l with
  | [] => [x]
  | y :: l' =>
      if Qle_bool (snd y) (snd x) then x :: y :: l' else y :: insert_desc x l'
  end.

Definition sort_desc (l : list (Z * Q)) : list (Z * Q) :=
  fold_right insert_desc [] l.

Definition enumerate (r : list Q) : list (Z * Q) :=
  combine (map Z.of_nat (seq 0 (length r))) r.

Definition argsort_desc (r : list Q) : list Z :=
  map fst (sort_desc (enumerate r)).

(** [output.topk(k, 1, True, True)], the indices only: for each row the
    indices of its [k] largest entries, largest first. *)
Definition topk (output : scores) (k : Z) : result (list (list Z)) :=
  if ((k <? 0) || (Z.of_nat (n_classes output) <? k))%Z
  then Raise (RuntimeError "selected index k out of range")
  else Ok (map (fun r => firstn (Z.to_nat k) (argsort_desc r)) (rows output)).

(** [pred.t()] for [pred] of shape (batch, k). *)
Definition transpose (k : nat) (pred : list (list Z)) : list (list Z) :=
  map (fun i => map (fun r => nth i r 0%Z) pred) (seq 0 k).

(** [target.view(1, -1).expand_as(pred)] for [pred] of shape (k, batch):
    [view] gives the shape (1, len(target)), also for a target of no
    element; [expand_as] repeats that row [k] times when the target has one
    label per sample, broadcasts a target of one label along the batch, and
    refuses every other length. *)
Definition expand_as (target : list Z) (k batch : nat) : result (list (list Z)) :=
  if Nat.eqb (length target) batch then Ok (repeat target k)
  else match target with
       | [t0] => Ok (repeat (repeat t0 batch) k)
       | _ => Raise (RuntimeError "The expanded size of the tensor must match the existing size")
       end.

(** [pred.eq(t)], element by element. *)
Definition eq (pred t : list (list Z)) : list (list bool) :=
  map (fun pt => map (fun ab => Z.eqb (fst ab) (snd ab)) (combine (fst pt) (snd pt)))
      (combine pred t).

(** [c.reshape(-1).float().sum(0, keepdim=True)]: the number of [True]. *)
Definition sum_true (c : list (list bool)) : nat :=
  length (filter (fun b : bool => b) (concat c)).

End Torch.

Import Torch.

(** ** [accuracy] (train.py, lines 136-152) *)

Definition accuracy (output : scores) (target : list Z) (topk : list Z)
  : result (list Q) :=
  maxk <- Py.max topk ;;
  let batch_size := length target in
  pred <- Torch.topk output maxk ;;
  let pred := Torch.transpose (Z.to_nat maxk) pred in
  t <- Torch.expand_as target (length pred) (length (rows output)) ;;
  let correct := Torch.eq pred t in
  Py.for_each
    (fun k =>
       let correct_k := Torch.sum_true (Py.slice_to k correct) in
       f <- Py.truediv 100 batch_size ;;
       Ok (inject_Z (Z.of_nat correct_k) * f))
    topk.

(** The property of section 4.1: a sample counts as correct for [k] when its
    label is among the [k] first indices of its ranking. *)
Definition label_in_topk (k : nat) (row : list Q) (label : Z) : bool :=
  existsb (Z.eqb label) (firstn k (argsort_desc row)).

Definition n_correct (k : nat) (output : scores) (target : list Z) : nat :=
  length (filter (fun rl => label_in_topk k (fst rl) (snd rl))
                 (combine (rows output) target)).

Definition topk_percentage (k : Z) (output : scores) (target : list Z) : Q :=
  100 * inject_Z (Z.of_nat (n_correct (Z.to_nat k) output target))
  / inject_Z (Z.of_nat (length target)).

(** ** The float arithmetic of line 151

    [correct_k] is a float32 tensor with one element and [100.0 / batch_size]
    a Python float (binary64); [mul_] converts the factor to float32 and
    rounds the product to float32.  A float is modelled by its rational
    value.  [Ieee.round] is IEEE 754 rounding to nearest, ties to even, to a
    given number of significant bits, for values within the exponent range of
    the format: the quotient and the products of a batch of up to 2^24
    samples are far from the overflow and underflow thresholds of both
    formats. *)

Module Ieee.

Definition pow2 (e : Z) : Q := 2 ^ e.

(** The exponent of a positive value: the [e] with 2^e <= q < 2^(e+1). *)
Definition ilog2 (q : Q) : Z :=
  let k := (Z.log2 (Qnum q) - Z.log2 (Zpos (Qden q)))%Z in
  if Qle_bool (pow2 k) q then k else (k - 1)%Z.

(** The nearest integer, the even one of two that are equally near. *)
Definition rne (x : Q) : Z :=
  let f := Qfloor x in
  match Qcompare (x - inject_Z f) (1 # 2) with
  | Lt => f
  | Gt => (f + 1)%Z
  | Eq => if Z.even f then f else (f + 1)%Z
  end.

(** The nearest value with [prec] significant bits: a multiple of
    2^(e - prec + 1), where [e] is the exponent of [q]. *)
Definition round (prec : Z) (q : Q) : Q :=
  match Qcompare q 0 with
  | Eq => 0
  | Gt => let ulp := pow2 (ilog2 q - prec + 1) in
          Qred (inject_Z (rne (q / ulp)) * ulp)
  | Lt => let ulp := pow2 (ilog2 (- q) - prec + 1) in
          Qred (- (inject_Z (rne (- q / ulp)) * ulp))
  end.

End Ieee.

Definition float64 (q : Q) : Q := Ieee.round 53 q.
Definition float32 (q : Q) : Q := Ieee.round 24 q.

(** [accuracy] with the arithmetic of line 151:
    [correct_k.mul_(100.0 / batch_size)] is the float32 product of the count
    (a float32 holds every count up to 2^24 exactly) and the float32 value of
    the binary64 quotient. *)
Definition accuracy_float32 (output : scores) (target : list Z) (topk : list Z)
  : result (list Q) :=
  maxk <- Py.max topk ;;
  let batch_size := length target in
  pred <- Torch.topk output maxk ;;
  let pred := Torch.transpose (Z.to_nat maxk) pred in
  t <- Torch.expand_as target (length pred) (length (rows output)) ;;
  let correct := Torch.eq pred t in
  Py.for_each
    (fun k =>
       let correct_k := Torch.sum_true (Py.slice_to k correct) in
       f <- Py.truediv 100 batch_size ;;
       Ok (float32 (inject_Z (Z.of_nat correct_k) * float32 (float64 f))))
    topk.

(** The same product in the Standard Library's specification of IEEE
    arithmetic ([SpecFloat]), binary64 for the quotient and binary32 for the
    product, and the rational value of its result. *)
Definition binary_of_nat (prec emax : Z) (n : nat) : spec_float :=
  binary_normalize prec emax (Z.of_nat n) 0 false.

Definition binary32_of_binary64 (x : spec_float) : spec_float :=
  match x with
  | S754_finite s m e => binary_normalize 24 128 (if s then Zneg m else Zpos m) e false
  | _ => x
  end.

Definition spec_scaled_count (c batch_size : nat) : spec_float :=
  SFmul 24 128 (binary_of_nat 24 128 c)
        (binary32_of_binary64
           (SFdiv 53 1024 (binary_of_nat 53 1024 100) (binary_of_nat 53 1024 batch_size))).

Definition value_of (x : spec_float) : Q :=
  match x with
  | S754_finite s m e => (if s then -1 else 1) * inject_Z (Zpos m) * Ieee.pow2 e
  | _ => 0
  end.

(** ** Floats with the IEEE special values

    A finite float is its rational value; [leb] is the comparison [<=] of
    Python and torch, false as soon as one side is NaN. *)

Module Float.

Inductive t : Type :=
| NaN
| NInf
| Fin (q : Q)
| PInf.

Definition inf : t := PInf.

Definition is_finite (x : t) : bool :=
  match x with Fin _ => true | _ => false end.

Definition is_nan (x : t) : bool :=
  match x with NaN => true | _ => false end.

Definition leb (x y : t) : bool :=
  match x, y with
  | NaN, _ | _, NaN => false
  | NInf, _ => true
  | _, PInf => true
  | Fin a, Fin b => Qle_bool a b
  | Fin _, NInf | PInf, _ => false
  end.

Definition add (x y : t) : t :=
  match x, y with
  | NaN, _ | _, NaN => NaN
  | PInf, NInf | NInf, PInf => NaN
  | PInf, _ | _, PInf => PInf
  | NInf, _ | _, NInf => NInf
  | Fin a, Fin b => Fin (Qred (a + b))
  end.

(** The sign of the product of a rational and an infinity. *)
Definition scale_inf (a : Q) (pos : bool) : t :=
  match Qcompare a 0 with
  | Eq => NaN
  | Gt => if pos then PInf else NInf
  | Lt => if pos then NInf else PInf
  end.

Definition mul (x y : t) : t :=
  match x, y with
  | NaN, _ | _, NaN => NaN
  | Fin a, Fin b => Fin (Qred (a * b))
  | Fin a, PInf | PInf, Fin a => scale_inf a true
  | Fin a, NInf | NInf, Fin a => scale_inf a false
  | PInf, PInf | NInf, NInf => PInf
  | PInf, NInf | NInf, PInf => NInf
  end.

(** [x / n] for a positive int [n]. *)
Definition div_nat (x : t) (n : nat) : t :=
  match x with
  | Fin a => Fin (Qred (a / inject_Z (Z.of_nat n)))
  | _ => x
  end.

End Float.

(** ** The objects [pass_epoch] mutates *)

(** The model: its parameters, their accumulated gradients ([p.grad], [None]
    until a backward pass) and the train/eval switch. *)
Record Model : Type := mkModel {
  params : list Float.t;
  grad : option (list Float.t);
  training : bool
}.

(** [optim.SGD]: hyper-parameters and the momentum buffers. *)
Record SGD : Type := mkSGD {
  lr : Q;
  momentum : Q;
  weight_decay : Q;
  momentum_buffer : option (list Float.t)
}.

Fixpoint map2 {A B C} (f : A -> B -> C) (l : list A) (l' : list B) : list C :=
  match l, l' with
  | a :: l, b :: l' => f a b :: map2 f l l'
  | _, _ => []
  end.

(** [optimizer.step()] of SGD (dampening 0, no Nesterov momentum): parameters
    without a gradient are left alone. *)
Definition sgd_step (o : SGD) (m : Model) : SGD * Model :=
  match grad m with
  | None => (o, m)
  | Some g =>
      let d_p :=
        if Qeq_bool (weight_decay o) 0 then g
        else map2 (fun gi p => Float.add gi (Float.mul (Float.Fin (weight_decay o)) p))
                  g (params m) in
      let buf :=
        if Qeq_bool (momentum o) 0 then None
        else match momentum_buffer o with
             | None => Some d_p
             | Some b =>
                 Some (map2 (fun bi di => Float.add (Float.mul (Float.Fin (momentum o)) bi) di)
                            b d_p)
             end in
      let d_p := match buf with Some b => b | None => d_p end in
      let o' :=
        match buf with
        | Some b => mkSGD (lr o) (momentum o) (weight_decay o) (Some b)
        | None => o
        end in
      (o', mkModel
             (map2 (fun p di => Float.add p (Float.mul (Float.Fin (- lr o)) di))
                   (params m) d_p)
             (grad m) (training m))
  end.

(** [optimizer.zero_grad()]. *)
Definition zero_grad (m : Model) : Model :=
  mkModel (params m) None (training m).

(** Modelled from the spec: torch's [GradScaler] (section 4.2,
    MixedPrecisionScaler) is a library class, not in the repository.  It holds
    a scale factor; [scale] multiplies the loss by it, so the backward pass
    is the one of the scaled loss; [step] applies the optimizer's update only
    if the gradients, divided by the scale factor, are all finite, and
    otherwise skips the update and halves the scale factor; [update] grows the
    scale factor after a window of consecutive overflow-free steps. *)
Record GradScaler : Type := mkScaler {
  scale_factor : Q;
  growth_tracker : nat;
  growth_interval : nat;
  growth_factor : Q
}.

Definition GradScaler_default : GradScaler := mkScaler 65536 0 2000 2.

Definition unscale (s : GradScaler) (m : Model) : Model :=
  mkModel (params m)
          (option_map (map (Float.mul (Float.Fin (/ scale_factor s)))) (grad m))
          (training m).

Definition grads_finite (m : Model) : bool :=
  match grad m with
  | None => true
  | Some g => forallb Float.is_finite g
  end.

Definition scaler_step (s : GradScaler) (o : SGD) (m : Model)
  : GradScaler * SGD * Model :=
  let m := unscale s m in
  if grads_finite m
  then let (o', m') := sgd_step o m in
       (mkScaler (scale_factor s) (S (growth_tracker s)) (growth_interval s) (growth_factor s),
        o', m')
  else (mkScaler (Qred (scale_factor s * (1 # 2))) 0 (growth_interval s) (growth_factor s),
        o, m).

Definition scaler_update (s : GradScaler) : GradScaler :=
  if Nat.eqb (growth_tracker s) (growth_interval s)
  then mkScaler (Qred (scale_factor s * growth_factor s)) 0
                (growth_interval s) (growth_factor s)
  else s.

(** What a call of [pass_epoch] can mutate. *)
Record PState : Type := mkPState {
  model : Model;
  optimizer : SGD;
  scaler : GradScaler;
  stdout : list string
}.

(** The running sums and the loop variable [i_batch], unbound before the
    first batch. *)
Record Sums : Type := mkSums {
  loss : Float.t;
  acc_top1 : Q;
  acc_top5 : Q;
  i_batch : option nat
}.

(** Per-epoch averages (loss, top-1, top-5). *)
Definition Metrics : Type := (Float.t * Q * Q)%type.

(** ** [pass_epoch] (train.py, lines 161-195) *)

Section Training.

(** The collaborators: the batches' inputs, the model's forward pass in train
    or eval mode, and autograd's backward pass of the scaled loss, which yields
    one gradient per parameter. *)
Variable X : Type.
Variable forward : bool -> list Float.t -> X -> scores.
Variable backward : bool -> list Float.t -> X -> list Z -> Q -> list Float.t.

Definition Batch : Type := (X * list Z)%type.
Definition LossFn : Type := scores -> list Z -> Float.t.

(** [model.train()], [model.eval()], or the message of the last branch. *)
Definition set_mode (mode : string) (st : PState) : PState :=
  let m := model st in
  if String.eqb mode "Train"
  then mkPState (mkModel (params m) (grad m) true)
                (optimizer st) (scaler st) (stdout st)
  else if String.eqb mode "Eval"
  then mkPState (mkModel (params m) (grad m) false)
                (optimizer st) (scaler st) (stdout st)
  else mkPState m (optimizer st) (scaler st)
                (stdout st ++ ["error model mode!"%string]).

(** [scaler.scale(loss_batch).backward()]: the gradients are accumulated into
    [p.grad]. *)
Definition scaled_backward (st : PState) (x : X) (y : list Z) : PState :=
  let m := model st in
  let g := backward (training m) (params m) x y (scale_factor (scaler st)) in
  let g' := match grad m with
            | None => g
            | Some g0 => map2 Float.add g0 g
            end in
  mkPState (mkModel (params m) (Some g') (training m))
           (optimizer st) (scaler st) (stdout st).

(** Lines 182-186, the body of [if mode == "Train"]. *)
Definition train_batch (st : PState) (x : X) (y : list Z) : PState :=
  (* model_optimizer.zero_grad() *)
  let st := mkPState (zero_grad (model st)) (optimizer st) (scaler st) (stdout st) in
  (* scaler.scale(loss_batch).backward() *)
  let st := scaled_backward st x y in
  (* scaler.step(model_optimizer) *)
  let '(s, o, m) := scaler_step (scaler st) (optimizer st) (model st) in
  (* scaler.update() *)
  let s := scaler_update s in
  (* model_optimizer.step() *)
  let (o, m) := sgd_step o m in
  mkPState m o s (stdout st).

(** One iteration of the loop over the batches. *)
Definition pass_batch (loss_fn : LossFn) (mode : string)
           (st : PState) (acc : Sums) (i : nat) (image_batch : Batch)
  : PState * result Sums :=
  let (x, y) := image_batch in
  let st := set_mode mode st in
  let y_pred := forward (training (model st)) (params (model st)) x in
  let loss_batch := loss_fn y_pred y in
  match accuracy y_pred y [1; 5]%Z with
  | Raise e => (st, Raise e)
  | Ok loss_batch_acc_top =>
      let st := if String.eqb mode "Train" then train_batch st x y else st in
      (st,
       top1 <- Py.getitem loss_batch_acc_top 0 ;;
       top5 <- Py.getitem loss_batch_acc_top 1 ;;
       Ok (mkSums (Float.add (loss acc) loss_batch)
                  (Qred (acc_top1 acc + top1))
                  (Qred (acc_top5 acc + top5))
                  (Some i)))
  end.

Fixpoint pass_loop (loss_fn : LossFn) (mode : string)
         (st : PState) (acc : Sums) (i : nat) (loader : list Batch)
  : PState * result Sums :=
  match loader with
  | [] => (st, Ok acc)
  | image_batch :: rest =>
      match pass_batch loss_fn mode st acc i image_batch with
      | (st', Ok acc') => pass_loop loss_fn mode st' acc' (S i) rest
      | (st', Raise e) => (st', Raise e)
      end
  end.

Definition pass_epoch (st : PState) (loader : list Batch) (loss_fn : LossFn)
           (mode : string) : PState * result Metrics :=
  match pass_loop loss_fn mode st (mkSums (Float.Fin 0) 0 0 None) 0 loader with
  | (st', Raise e) => (st', Raise e)
  | (st', Ok acc) =>
      (* loss /= i_batch + 1, with i_batch unbound after an empty loop *)
      match i_batch acc with
      | None => (st', Raise (UnboundLocalError "i_batch"))
      | Some i =>
          let n := (i + 1)%nat in
          (st', Ok (Float.div_nat (loss acc) n,
                    Qred (acc_top1 acc / inject_Z (Z.of_nat n)),
                    Qred (acc_top5 acc / inject_Z (Z.of_nat n))))
      end
  end.

(** ** [train] (train.py, lines 213-296) *)

Record Args : Type := mkArgs {
  args_lr : Q;
  args_momentum : Q;
  args_weight_decay : Q;
  args_label_smooth : Q;
  output_foloder : string;
  epochs : Z
}.

(** The loss of [src.loss_functions.CrossEntropyLS], built from the
    label-smoothing factor. *)
Variable CrossEntropyLS : Q -> LossFn.

(** Modelled from the spec: torch's [ReduceLROnPlateau] in mode min is a
    library class, not in the repository.  It reduces the learning rate by a
    fixed factor after a configured number of stagnant epochs, and its state
    persists across epochs (section 4.4). *)
Record Plateau : Type := mkPlateau {
  best : Float.t;
  num_bad_epochs : nat;
  patience : nat;
  factor : Q
}.

Definition ReduceLROnPlateau_min : Plateau := mkPlateau Float.inf 0 10 (1 # 10).

Definition scheduler_step (p : Plateau) (metric : Float.t) (o : SGD) : Plateau * SGD :=
  let improved := Float.leb metric (best p) && negb (Float.leb (best p) metric) in
  let p1 := if improved
            then mkPlateau metric 0 (patience p) (factor p)
            else mkPlateau (best p) (S (num_bad_epochs p)) (patience p) (factor p) in
  if Nat.ltb (patience p1) (num_bad_epochs p1)
  then (mkPlateau (best p1) 0 (patience p1) (factor p1),
        mkSGD (Qred (lr o * factor p1)) (momentum o) (weight_decay o) (momentum_buffer o))
  else (p1, o).

(** One call of [writer.add_scalars(tag, {"train": a, "val": b}, epoch)]. *)
Record Scalars : Type := mkScalars {
  tag : string;
  train_value : Float.t;
  val_value : Float.t;
  step : nat
}.

(** What a call of [train] can mutate besides the state of [pass_epoch]: the
    scheduler, the files written by [torch.save] (path and saved parameters, in
    order), the figures written by [update_loss_hist], and the writer. *)
Record TState : Type := mkTState {
  pstate : PState;
  scheduler : Plateau;
  saved : list (string * list Float.t);
  figures : list string;
  writer : list Scalars
}.

(** The local variables of [train] that live across epochs. *)
Record Locals : Type := mkLocals {
  train_loss_history : list Float.t;
  train_acc_top1_history : list Q;
  train_acc_top5_history : list Q;
  val_loss_history : list Float.t;
  val_acc_top1_history : list Q;
  val_acc_top5_history : list Q;
  stop : nat;
  min_val_loss : Float.t
}.

Definition latest_path (args : Args) : string :=
  (output_foloder args ++ "/checkpoint.pth.tar")%string.

Definition numbered_path (args : Args) (n : nat) : string :=
  (output_foloder args ++ "/checkpoint_" ++ Py.fmt_04d n ++ ".pth.tar")%string.

(** [torch.save(model, path)]. *)
Definition torch_save (path : string) (t : TState) : TState :=
  mkTState (pstate t) (scheduler t)
           (saved t ++ [(path, params (model (pstate t)))])
           (figures t) (writer t).

Definition print (line : string) (t : TState) : TState :=
  let st := pstate t in
  mkTState (mkPState (model st) (optimizer st) (scaler st) (stdout st ++ [line]))
           (scheduler t) (saved t) (figures t) (writer t).

Definition with_pstate (st : PState) (t : TState) : TState :=
  mkTState st (scheduler t) (saved t) (figures t) (writer t).

(** [update_loss_hist(args, ..., name)]: the figure is saved under
    [output_foloder/name.png]. *)
Definition update_loss_hist (args : Args) (name : string) (t : TState) : TState :=
  mkTState (pstate t) (scheduler t) (saved t)
           (figures t ++ [(output_foloder args ++ "/" ++ name ++ ".png")%string])
           (writer t).

Definition add_scalars (s : Scalars) (t : TState) : TState :=
  mkTState (pstate t) (scheduler t) (saved t) (figures t) (writer t ++ [s]).

(** How an iteration of the loop over the epochs ends. *)
Inductive Flow : Type := Continue | Break.

(** The body of [for epoch in range(args.epochs)] (lines 233-294), and the
    loop itself. *)
Definition epoch_body (args : Args) (loss_fn : LossFn)
           (train_loader val_loader : list Batch)
           (t : TState) (loc : Locals) (epoch : nat)
  : TState * result (Locals * Flow) :=
  let t := print (String "010" "Epoch " ++ Py.str (epoch + 1) ++ "/"
                  ++ Py.str_int (epochs args))%string t in
  let t := print "----------" t in
  match pass_epoch (pstate t) train_loader loss_fn "Train" with
  | (st, Raise e) => (with_pstate st t, Raise e)
  | (st, Ok (train_loss, train_acc_top1, train_acc_top5)) =>
  match pass_epoch st val_loader loss_fn "Eval" with
  | (st, Raise e) => (with_pstate st t, Raise e)
  | (st, Ok (val_loss, val_acc_top1, val_acc_top5)) =>
      (* model_scheduler.step(val_loss) *)
      let (sch, o) := scheduler_step (scheduler t) val_loss (optimizer st) in
      let t := mkTState (mkPState (model st) o (scaler st) (stdout st)) sch
                        (saved t) (figures t) (writer t) in
      let t := add_scalars (mkScalars "loss" train_loss val_loss epoch) t in
      let t := add_scalars (mkScalars "top1" (Float.Fin train_acc_top1)
                                      (Float.Fin val_acc_top1) epoch) t in
      let t := add_scalars (mkScalars "top5" (Float.Fin train_acc_top5)
                                      (Float.Fin val_acc_top5) epoch) t in
      let loc := mkLocals (train_loss_history loc ++ [train_loss])
                          (train_acc_top1_history loc ++ [train_acc_top1])
                          (train_acc_top5_history loc ++ [train_acc_top5])
                          (val_loss_history loc ++ [val_loss])
                          (val_acc_top1_history loc ++ [val_acc_top1])
                          (val_acc_top5_history loc ++ [val_acc_top5])
                          (stop loc) (min_val_loss loc) in
      let t := update_loss_hist args "Loss" t in
      let t := update_loss_hist args "Top5" t in
      let t := update_loss_hist args "Top1" t in
      if Float.leb val_loss (min_val_loss loc)
      then
        (* val_loss = min_val_loss: the local val_loss is rebound;
           min_val_loss and stop keep their values *)
        let val_loss := min_val_loss loc in
        let t := torch_save (numbered_path args (epoch + 1)) t in
        (t, Ok (loc, Continue))
      else
        let loc := mkLocals (train_loss_history loc) (train_acc_top1_history loc)
                            (train_acc_top5_history loc) (val_loss_history loc)
                            (val_acc_top1_history loc) (val_acc_top5_history loc)
                            (stop loc + 1) (min_val_loss loc) in
        if Nat.ltb 5 (stop loc)
        then (print "early stopping" t, Ok (loc, Break))
        else (t, Ok (loc, Continue))
  end
  end.

Fixpoint epoch_loop (args : Args) (loss_fn : LossFn)
         (train_loader val_loader : list Batch)
         (t : TState) (loc : Locals) (range : list nat)
  : TState * result (Locals * Flow) :=
  match range with
  | [] => (t, Ok (loc, Continue))
  | epoch :: rest =>
      match epoch_body args loss_fn train_loader val_loader t loc epoch with
      | (t', Raise e) => (t', Raise e)
      | (t', Ok (loc', Break)) => (t', Ok (loc', Break))
      | (t', Ok (loc', Continue)) =>
          epoch_loop args loss_fn train_loader val_loader t' loc' rest
      end
  end.

(** [train(args, model, train_loader, val_loader, writer, device)]: the final
    state, with everything the call wrote, and either the final locals with
    the way the loop ended ([Break]: early stopping, [Continue]: the range was
    exhausted), or the exception that ended the call. *)
Definition train (args : Args) (m : Model) (train_loader val_loader : list Batch)
  : TState * result (Locals * Flow) :=
  let model_optimizer :=
    mkSGD (args_lr args) (args_momentum args) (args_weight_decay args) None in
  let model_scheduler := ReduceLROnPlateau_min in
  (* the scaler of line 229 is part of the state from the start: nothing
     reads it before the first epoch *)
  let t := mkTState (mkPState m model_optimizer GradScaler_default [])
                    model_scheduler [] [] [] in
  let t := torch_save (latest_path args) t in
  let loss_fn := CrossEntropyLS (args_label_smooth args) in
  let loc := mkLocals [] [] [] [] [] [] 0 Float.inf in
  match epoch_loop args loss_fn train_loader val_loader t loc
                   (seq 0 (Z.to_nat (epochs args))) with
  | (t, Raise e) => (t, Raise e)
  | (t, Ok end_of_loop) =>
      let t := torch_save (latest_path args) t in
      (t, Ok end_of_loop)
  end.

End Training.

Arguments scaled_backward {X}.
Arguments train_batch {X}.
Arguments pass_batch {X}.
Arguments pass_loop {X}.
Arguments pass_epoch {X}.
Arguments epoch_body {X}.
Arguments epoch_loop {X}.
Arguments train {X}.

(** ** A small deterministic model to run the code on

    One parameter [p], one sample per batch, five classes.  The scores of a
    sample are [p, 0, 0, 0, 0].  Training batches carry the label 0 and
    validation batches the label 1; the loss of a training batch is
    [train_loss p], the loss of a validation batch is [p] itself, and the
    backward pass yields the scale factor times the slope of the loss at
    [p]. *)

Module Toy.

Definition first_param (ps : list Float.t) : Q :=
  match ps with
  | Float.Fin p :: _ => p
  | _ => 0
  end.

Definition first_score (pred : scores) : Q :=
  match rows pred with
  | (s :: _) :: _ => s
  | _ => 0
  end.

Definition forward (training : bool) (ps : list Float.t) (x : unit) : scores :=
  mkScores 5 [[first_param ps; 0; 0; 0; 0]].

Definition is_train (y : list Z) : bool :=
  match y with
  | [0%Z] => true
  | _ => false
  end.

Definition loss (train_loss : Q -> Float.t) (smooth : Q) (pred : scores) (y : list Z)
  : Float.t :=
  if is_train y then train_loss (first_score pred) else Float.Fin (first_score pred).

Definition backward (slope : Q -> Float.t)
           (training : bool) (ps : list Float.t) (x : unit) (y : list Z) (scale : Q)
  : list Float.t :=
  [Float.mul (Float.Fin scale)
             (if is_train y then slope (first_param ps) else Float.Fin 1)].

Definition train_loader : list (Batch unit) := [(tt, [0%Z])].
Definition val_loader : list (Batch unit) := [(tt, [1%Z])].

Definition args (n : Z) : Args := mkArgs 1 0 0 (2 # 10) "model/model_test" n.

Definition model0 (p : Q) : Model := mkModel [Float.Fin p] None true.

(** A training loss of slope -1/10: each batch moves [p] up by 2/10 (the
    update is applied twice), so the validation loss worsens at every
    epoch. *)
Definition steady_loss (p : Q) : Float.t := Float.Fin (Qred (- p / 10)).
Definition steady_slope (p : Q) : Float.t := Float.Fin (-1 # 10).

(** A training loss whose slope halves past 11/10. *)
Definition slowing_loss (p : Q) : Float.t :=
  if Qle_bool p (11 # 10)
  then Float.Fin (Qred (- p / 10))
  else Float.Fin (Qred (- (11 # 100) - (p - (11 # 10)) / 20)).
Definition slowing_slope (p : Q) : Float.t :=
  if Qle_bool p (11 # 10) then Float.Fin (-1 # 10) else Float.Fin (-1 # 20).

(** A batch whose gradient overflows. *)
Definition overflow_slope (p : Q) : Float.t := Float.PInf.

(** A loss that is NaN on every batch, with a zero gradient. *)
Definition nan_loss (smooth : Q) (pred : scores) (y : list Z) : Float.t := Float.NaN.
Definition zero_slope (p : Q) : Float.t := Float.Fin 0.

(** [train] from the parameter 8/10. *)
Definition run (slope : Q -> Float.t) (loss_fn : Q -> scores -> list Z -> Float.t)
           (n : Z) : TState * result (Locals * Flow) :=
  train forward (backward slope) loss_fn (args n) (model0 (8 # 10))
        train_loader val_loader.

Definition pstate0 (p : Q) : PState :=
  mkPState (model0 p) (mkSGD 1 0 0 None) GradScaler_default [].

End Toy.

(** ** Notions the statements use *)


(** The label of the sample is among its [k] first indices. *)
Definition in_first (k : nat) (pl : list Z * Z) : bool :=
  existsb (Z.eqb (snd pl)) (firstn k (fst pl)).

(** The index at rank [i] is the label of the sample. *)
Definition cell (i : nat) (pl : list Z * Z) : bool :=
  Z.eqb (nth i (fst pl) 0%Z) (snd pl).

Definition count {A} (f : A -> bool) (l : list A) : nat :=
  length (filter f l).

(** Two states that differ at most in the train/eval switch of the model. *)
Definition same_but_training (st st' : PState) : Prop :=
  params (model st') = params (model st) /\
  grad (model st') = grad (model st) /\
  optimizer st' = optimizer st /\
  scaler st' = scaler st /\
  stdout st' = stdout st.

(** The state after [n] more lines ["error model mode!"]. *)
Definition with_mode_errors (st : PState) (n : nat) : PState :=
  mkPState (model st) (optimizer st) (scaler st)
           (stdout st ++ repeat "error model mode!"%string n).

(** [accuracy] accepts the predictions of the batch in the given mode. *)
Definition accuracy_accepts {X : Type} (forward : bool -> list Float.t -> X -> scores)
           (training : bool) (ps : list Float.t) (b : Batch X) : Prop :=
  Py.is_ok (accuracy (forward training ps (fst b)) (snd b) [1; 5]%Z) = true.

(** The epochs, among [range], whose validation loss in [vs] is not NaN. *)
Definition checkpoint_epochs (range : list nat) (vs : list Float.t) : list nat :=
  map fst (filter (fun ev => negb (Float.is_nan (snd ev))) (combine range vs)).

(** A batch of three samples over six classes. *)
Definition batch3 : scores :=
  mkScores 6 [ [0.1; 0.9; 0.3; 0.2; 0.5; 0.4];
               [0.7; 0.1; 0.2; 0.6; 0.5; 0.4];
               [0.3; 0.2; 0.1; 0.6; 0.5; 0.4] ]%Q.

(** The number of classes whose score is strictly higher than the score of
    the label. *)
Definition n_higher (row : list Q) (label : Z) : nat :=
  count (fun s => negb (Qle_bool s (nth (Z.to_nat label) row 0))) row.

(** The label is among the [k] highest-scored classes of the row: it is a
    class index, and fewer than [k] classes score higher. *)
Definition among_top (k : nat) (row : list Q) (label : Z) : bool :=
  (0 <=? label)%Z && (label <? Z.of_nat (length row))%Z
  && (n_higher row label <? k)%nat.

Definition n_among_top (k : nat) (output : scores) (target : list Z) : nat :=
  count (fun rl => among_top k (fst rl) (snd rl)) (combine (rows output) target).

(** No two classes of the row have the same score, so that the ranking of
    the row does not depend on how equal scores are ordered. *)
Definition tie_free (row : list Q) : Prop :=
  forall i j, (i < length row)%nat -> (j < length row)%nat ->
              nth i row 0 == nth j row 0 -> i = j.

(** The entry [y] of a ranking has a score strictly higher than [q]. *)
Definition beats (q : Q) (y : Z * Q) : bool := negb (Qle_bool (snd y) q).

(** What line 151 computes from a number of correct samples. *)
Definition scaled_count_float32 (c batch_size : nat) : Q :=
  float32 (inject_Z (Z.of_nat c) * float32 (float64 (100 / inject_Z (Z.of_nat batch_size)))).

(** The distance between 100 and its neighbours in float32: 2^-17. *)
Definition float32_step_at_100 : Q := Ieee.pow2 (-17).

(** [r] is [x] up to the relative error 2^-22 of the three roundings. *)
Definition within_rounding (x r : Q) : Prop :=
  x * (1 - Ieee.pow2 (-22)) <= r /\ r <= x * (1 + Ieee.pow2 (-22)).

(** A batch of 45 samples over five classes, every label the highest-scored
    class of its row. *)
Definition batch45 : scores := mkScores 5 (repeat [1; 0; 0; 0; 0] 45).
Definition labels45 : list Z := repeat 0%Z 45.

(** ** Further notions *)

(** The number of rows of [correct[:k]] when [correct] has [maxk] rows: a
    negative [k] counts from the end. *)
Definition effective_rank (maxk k : Z) : nat :=
  Z.to_nat (if (k <? 0)%Z then maxk + k else k).

(** What [accuracy] computes from a number of correct samples. *)
Definition scaled_count (c batch_size : nat) : Q :=
  inject_Z (Z.of_nat c) * (100 / inject_Z (Z.of_nat batch_size)).


(** The state an "Eval" batch leaves: the model is in eval mode. *)
Definition eval_state (st : PState) : PState :=
  mkPState (mkModel (params (model st)) (grad (model st)) false)
           (optimizer st) (scaler st) (stdout st).

(** The loss and the two accuracies of one batch in eval mode. *)
Definition batch_loss {X : Type} (forward : bool -> list Float.t -> X -> scores)
           (loss_fn : LossFn) (ps : list Float.t) (b : Batch X) : Float.t :=
  loss_fn (forward false ps (fst b)) (snd b).

Definition batch_top {X : Type} (forward : bool -> list Float.t -> X -> scores)
           (ps : list Float.t) (j : nat) (b : Batch X) : Q :=
  match accuracy (forward false ps (fst b)) (snd b) [1; 5]%Z with
  | Ok tops => nth j tops 0
  | Raise _ => 0
  end.

Definition qsum (l : list Q) : Q := fold_right Qplus 0 l.

Definition fsum (l : list Float.t) : Float.t := fold_left Float.add l (Float.Fin 0).

(** The number of samples of the whole loader that are correct at rank [k]. *)
Definition total_correct {X : Type} (forward : bool -> list Float.t -> X -> scores)
           (ps : list Float.t) (k : nat) (loader : list (Batch X)) : nat :=
  list_sum (map (fun b => n_correct k (forward false ps (fst b)) (snd b)) loader).

(** A batch of [size] samples with at least five classes. *)
Definition uniform_batch {X : Type} (forward : bool -> list Float.t -> X -> scores)
           (ps : list Float.t) (size : nat) (b : Batch X) : Prop :=
  let out := forward false ps (fst b) in
  wf out /\ length (rows out) = size /\ length (snd b) = size /\
  (5 <= n_classes out)%nat.





(** ** [save_checkpoint] (train.py, lines 155-158) *)

(** The names bound at the top level of [train.py]: its imports (lines 1-22)
    and its functions. *)
Definition module_globals : list string :=
  ["os"; "argparse"; "torch"; "np"; "math"; "nn"; "tqdm"; "optim"; "DataLoader";
   "MultiStepLR"; "StepLR"; "ReduceLROnPlateau"; "plt"; "clear_output";
   "GradScaler"; "autocast"; "BirdImageLoader"; "readClassIdx";
   "readTrainImages"; "splitDataList"; "CrossEntropyLS"; "main";
   "checkOutputDirectoryAndCreate"; "set_parameter_requires_grad"; "checkGPU";
   "update_loss_hist"; "create_model"; "create_dataloader"; "accuracy";
   "save_checkpoint"; "pass_epoch"; "create_writer"; "train"]%string.

(** Python's NameError, raised when a name is neither local nor global. *)
Inductive NameError : Type :=
| name_not_defined (name : string).

Definition lookup_global (name : string) : option NameError :=
  if existsb (String.eqb name) module_globals then None
  else Some (name_not_defined name).

(** The files of the working directory: the content under each path. *)
Definition Files (A : Type) : Type := string -> option A.

Definition write_file {A} (fs : Files A) (path : string) (content : A) : Files A :=
  fun p => if String.eqb p path then Some content else fs p.

(** [save_checkpoint(state, is_best, filename)]: the files after the call and
    the exception that ended it, if any. *)
Definition save_checkpoint {A} (fs : Files A) (state : A) (is_best : bool)
           (filename : string) : Files A * option NameError :=
  (* torch.save(state, filename) *)
  let fs := write_file fs filename state in
  if is_best
  then
    (* shutil.copyfile(filename, "model_best.pth.tar") *)
    match lookup_global "shutil" with
    | Some err => (fs, Some err)
    | None =>
        (match fs filename with
         | Some content => write_file fs "model_best.pth.tar" content
         | None => fs
         end, None)
    end
  else (fs, None).


(** * Properties *)

(** ** The ranking of a row *)

Section Ranking.

Lemma insert_desc_perm (x : Z * Q) (l : list (Z * Q)) :
  Permutation (insert_desc x l) (x :: l).
Proof.
  induction l as [|y l IH]; simpl.
  - apply Permutation_refl.
  - destruct (Qle_bool (snd y) (snd x)).
    + apply Permutation_refl.
    + eapply perm_trans; [apply perm_skip, IH | apply perm_swap].
Qed.

Lemma sort_desc_perm (l : list (Z * Q)) : Permutation (sort_desc l) l.
Proof.
  induction l as [|x l IH]; simpl.
  - constructor.
  - eapply perm_trans; [apply insert_desc_perm | apply perm_skip, IH].
Qed.

Lemma enumerate_fst (r : list Q) :
  map fst (enumerate r) = map Z.of_nat (seq 0 (length r)).
Proof.
  unfold enumerate.
  assert (H : forall (a : list Z) (b : list Q),
             length a = length b -> map fst (combine a b) = a).
  { induction a as [|x a IH]; intros [|y b]; simpl; intros E; try discriminate; auto.
    f_equal. apply IH. congruence. }
  apply H. now rewrite length_map, length_seq.
Qed.

Lemma argsort_desc_perm (r : list Q) :
  Permutation (argsort_desc r) (map Z.of_nat (seq 0 (length r))).
Proof.
  unfold argsort_desc. rewrite <- enumerate_fst.
  apply Permutation_map, sort_desc_perm.
Qed.

Lemma argsort_desc_length (r : list Q) : length (argsort_desc r) = length r.
Proof.
  rewrite (Permutation_length (argsort_desc_perm r)).
  now rewrite length_map, length_seq.
Qed.

Lemma argsort_desc_NoDup (r : list Q) : NoDup (argsort_desc r).
Proof.
  eapply Permutation_NoDup; [apply Permutation_sym, argsort_desc_perm|].
  apply Injective_map_NoDup_in; [|apply seq_NoDup].
  intros a b _ _. apply Nat2Z.inj.
Qed.

Lemma enumerate_In (r : list Q) (z : Z) (q : Q) :
  In (z, q) (enumerate r) ->
  exists j, (j < length r)%nat /\ z = Z.of_nat j /\ q = nth j r 0.
Proof.
  unfold enumerate.
  assert (H : forall (r : list Q) (s : nat),
             In (z, q) (combine (map Z.of_nat (seq s (length r))) r) ->
             exists j, (j < length r)%nat /\ z = Z.of_nat (s + j) /\ q = nth j r 0).
  { clear r. induction r as [|a r IH]; simpl; intros s H; [contradiction|].
    destruct H as [H|H].
    - inversion H; subst. exists O. repeat split; [lia | f_equal; lia].
    - destruct (IH _ H) as (j & Hj & Hz & Hq).
      exists (S j). repeat split; [lia | rewrite Hz; f_equal; lia | exact Hq]. }
  intros H0. destruct (H r O H0) as (j & ? & ? & ?). exists j. auto.
Qed.

Lemma In_enumerate (r : list Q) (j : nat) :
  (j < length r)%nat -> In (Z.of_nat j, nth j r 0) (enumerate r).
Proof.
  unfold enumerate.
  assert (H : forall (r : list Q) (s j : nat), (j < length r)%nat ->
             In (Z.of_nat (s + j), nth j r 0)
                (combine (map Z.of_nat (seq s (length r))) r)).
  { clear. induction r as [|a r IH]; simpl; intros s j Hj; [lia|].
    destruct j as [|j].
    - left. f_equal. f_equal. lia.
    - right. replace (s + S j)%nat with (S s + j)%nat by lia. apply IH. lia. }
  intros Hj. apply (H r O j Hj).
Qed.




End Ranking.

(** ** Counting the correct samples

    [correct[:k]] holds, for each of the [k] first ranks and each sample,
    whether the index at that rank is the sample's label.  Its number of
    [True] is the number of samples whose label is among their [k] first
    indices, because the indices of one sample are pairwise distinct. *)

Section Counting.

Lemma firstn_S_nth {A} (d : A) (l : list A) (k : nat) :
  (k < length l)%nat -> firstn (S k) l = firstn k l ++ [nth k l d].
Proof.
  revert k. induction l as [|a l IH]; simpl; intros k Hk; [lia|].
  destruct k as [|k]; [reflexivity|].
  simpl. f_equal. apply IH. lia.
Qed.

Lemma firstn_seq_le (s k m : nat) :
  (k <= m)%nat -> firstn k (seq s m) = seq s k.
Proof.
  revert s m. induction k as [|k IH]; intros s m Hk; [reflexivity|].
  destruct m as [|m]; [lia|].
  simpl. f_equal. apply IH. lia.
Qed.

Lemma nth_not_in_firstn (p : list Z) (k : nat) :
  NoDup p -> (k < length p)%nat -> ~ In (nth k p 0%Z) (firstn k p).
Proof.
  intros ND. revert k. induction ND as [|a p Ha ND IH]; simpl; intros k Hk; [lia|].
  destruct k as [|k]; simpl; [tauto|].
  intros [E|Hin].
  - apply Ha. rewrite E. apply nth_In. lia.
  - apply (IH k); [lia | exact Hin].
Qed.

Lemma in_first_S (k : nat) (pl : list Z * Z) :
  NoDup (fst pl) -> (k < length (fst pl))%nat ->
  (Nat.b2n (in_first (S k) pl) = Nat.b2n (in_first k pl) + Nat.b2n (cell k pl))%nat.
Proof.
  intros ND Hk. unfold in_first, cell.
  rewrite (firstn_S_nth 0%Z _ _ Hk), existsb_app. simpl. rewrite orb_false_r.
  destruct (existsb (Z.eqb (snd pl)) (firstn k (fst pl))) eqn:E; simpl.
  - destruct (Z.eqb_spec (nth k (fst pl) 0%Z) (snd pl)) as [Heq|]; [|reflexivity].
    exfalso. apply existsb_exists in E. destruct E as (x & Hx & Hlx).
    apply Z.eqb_eq in Hlx. apply (nth_not_in_firstn _ _ ND Hk). congruence.
  - rewrite Z.eqb_sym. now destruct (Z.eqb _ _).
Qed.

Lemma count_b2n {A} (f : A -> bool) (l : list A) :
  count f l = list_sum (map (fun a => Nat.b2n (f a)) l).
Proof.
  unfold count. induction l as [|a l IH]; simpl; [reflexivity|].
  destruct (f a); simpl; lia.
Qed.

Lemma count_in_first_S (k : nat) (PT : list (list Z * Z)) :
  Forall (fun pl => NoDup (fst pl) /\ (k < length (fst pl))%nat) PT ->
  (count (in_first (S k)) PT
   = count (in_first k) PT + count (fun b : bool => b) (map (cell k) PT))%nat.
Proof.
  intros H. rewrite !count_b2n, map_map.
  induction H as [|pl PT [ND Hk] _ IH]; simpl; [reflexivity|].
  rewrite IH, (in_first_S _ _ ND Hk).
  destruct (cell k pl); simpl; lia.
Qed.

Lemma sum_true_rows (row : nat -> list bool) (k : nat) :
  (sum_true (map row (seq 0 (S k)))
   = sum_true (map row (seq 0 k)) + count (fun b : bool => b) (row k))%nat.
Proof.
  unfold sum_true, count.
  rewrite seq_S, map_app, concat_app, filter_app, length_app. simpl.
  now rewrite app_nil_r.
Qed.

Lemma sum_true_correct (P : list (list Z)) (T : list Z) (m k : nat) :
  Forall (fun p => NoDup p /\ length p = m) P ->
  (k <= m)%nat ->
  sum_true (firstn k (map (fun i => map (cell i) (combine P T)) (seq 0 m)))
  = count (in_first k) (combine P T).
Proof.
  intros HP Hk. rewrite firstn_map, firstn_seq_le by exact Hk.
  induction k as [|k IH].
  - simpl. unfold count, in_first. simpl.
    induction (combine P T); simpl; auto.
  - rewrite sum_true_rows, IH by lia.
    rewrite count_in_first_S; [reflexivity|].
    apply Forall_forall. intros [p l] Hin.
    apply in_combine_l in Hin. rewrite Forall_forall in HP.
    destruct (HP _ Hin) as [ND Hl]. simpl. split; [exact ND | lia].
Qed.

(** [pred.t()] compared with the expanded target, row by row. *)
Lemma eq_transpose (P : list (list Z)) (T : list Z) (m : nat) :
  Torch.eq (Torch.transpose m P) (repeat T (length (Torch.transpose m P)))
  = map (fun i => map (cell i) (combine P T)) (seq 0 m).
Proof.
  unfold Torch.eq, Torch.transpose.
  rewrite length_map.
  generalize (seq 0 m) as l. induction l as [|i l IH]; simpl; [reflexivity|].
  f_equal; [|exact IH].
  clear. revert T. induction P as [|p P IH]; intros [|t T]; simpl; try reflexivity.
  f_equal. apply IH.
Qed.

End Counting.

(** ** What [accuracy] returns and when it raises *)

Section Accuracy.

Lemma fold_max_spec (ks : list Z) (a : Z) :
  let m := fold_left Z.max ks a in
  (m = a \/ In m ks) /\ (a <= m)%Z /\ Forall (fun k => (k <= m)%Z) ks.
Proof.
  revert a. induction ks as [|k ks IH]; simpl; intros a.
  - repeat split; [now left | lia | constructor].
  - destruct (IH (Z.max a k)) as ([E|Hin] & Hle & Hall).
    + repeat split; [| lia | constructor; [lia | exact Hall]].
      rewrite E. destruct (Z.max_spec a k) as [[_ ->]|[_ ->]]; auto.
    + repeat split; [auto | lia | constructor; [lia | exact Hall]].
Qed.

Lemma max_spec (ks : list Z) (m : Z) :
  Py.max ks = Ok m -> In m ks /\ Forall (fun k => (k <= m)%Z) ks.
Proof.
  destruct ks as [|k ks]; simpl; [discriminate|].
  intros [= <-]. destruct (fold_max_spec ks k) as ([E|Hin] & Hle & Hall).
  - split; [left; now rewrite E | constructor; assumption].
  - split; [now right | constructor; assumption].
Qed.

Lemma max_nonempty (ks : list Z) : ks <> [] -> exists m, Py.max ks = Ok m.
Proof.
  destruct ks; [congruence | intros _; simpl; eauto].
Qed.

Lemma for_each_ok {A B} (f : A -> result B) (g : A -> B) (ks : list A) :
  (forall k, In k ks -> f k = Ok (g k)) -> Py.for_each f ks = Ok (map g ks).
Proof.
  induction ks as [|k ks IH]; simpl; intros H; [reflexivity|].
  rewrite (H k) by now left. simpl. rewrite IH by auto. reflexivity.
Qed.

Lemma combine_map_l {A B C} (f : A -> B) (l : list A) (l' : list C) :
  combine (map f l) l' = map (fun p => (f (fst p), snd p)) (combine l l').
Proof.
  revert l'. induction l as [|a l IH]; intros [|c l']; simpl; try reflexivity.
  f_equal. apply IH.
Qed.

Lemma count_map {A B} (f : B -> bool) (g : A -> B) (l : list A) :
  count f (map g l) = count (fun a => f (g a)) l.
Proof.
  unfold count. induction l as [|a l IH]; simpl; [reflexivity|].
  destruct (f (g a)); simpl; now rewrite IH.
Qed.

Lemma NoDup_firstn_of {A} (n : nat) (l : list A) : NoDup l -> NoDup (firstn n l).
Proof.
  intros ND. revert n. induction ND as [|a l Ha ND IH]; intros [|n]; simpl;
    try constructor.
  - intros Hin. apply Ha. rewrite <- (firstn_skipn n l). apply in_or_app. now left.
  - apply IH.
Qed.

(** The top-[m] indices of every row: [m] distinct indices. *)
Lemma topk_rows (output : scores) (m : nat) :
  wf output -> (m <= n_classes output)%nat ->
  Forall (fun p => NoDup p /\ length p = m)
         (map (fun r => firstn m (argsort_desc r)) (rows output)).
Proof.
  intros Hwf Hm. apply Forall_map.
  eapply Forall_impl; [|exact Hwf]. simpl. intros r Hr. split.
  - apply NoDup_firstn_of, argsort_desc_NoDup.
  - rewrite length_firstn, argsort_desc_length, Hr. lia.
Qed.

(** The number of [True] in [correct[:k]] is the number of samples whose
    label is among their [k] first indices. *)
Lemma correct_k_count (output : scores) (target : list Z) (m k : nat) :
  wf output -> (m <= n_classes output)%nat -> (k <= m)%nat ->
  let pred := map (fun r => firstn m (argsort_desc r)) (rows output) in
  sum_true (firstn k (map (fun i => map (cell i) (combine pred target)) (seq 0 m)))
  = n_correct k output target.
Proof.
  intros Hwf Hm Hk pred.
  rewrite (sum_true_correct pred target m k (topk_rows output m Hwf Hm) Hk).
  unfold pred, n_correct. rewrite combine_map_l, count_map. unfold count.
  f_equal. apply filter_ext. intros [r l]. unfold in_first, label_in_topk. simpl.
  now rewrite firstn_firstn, Nat.min_l by exact Hk.
Qed.

(** On a batch with as many labels as rows and at least one sample, and for
    ranks between 1 and the number of classes, [accuracy] returns one value
    per rank: the count of correct samples times [100.0 / batch_size]. *)
Lemma accuracy_ok (output : scores) (target : list Z) (topk : list Z) :
  wf output ->
  length target = length (rows output) ->
  target <> [] ->
  topk <> [] ->
  Forall (fun k => (0 < k <= Z.of_nat (n_classes output))%Z) topk ->
  accuracy output target topk
  = Ok (map (fun k => inject_Z (Z.of_nat (n_correct (Z.to_nat k) output target))
                      * (100 / inject_Z (Z.of_nat (length target))))
            topk).
Proof.
  intros Hwf Hlen Hne Hks Hall. unfold accuracy.
  destruct (max_nonempty topk Hks) as [m Hm]. rewrite Hm. simpl.
  destruct (max_spec _ _ Hm) as [Hin Hle].
  rewrite Forall_forall in Hall, Hle.
  pose proof (Hall _ Hin) as Hmb.
  unfold Torch.topk.
  replace ((m <? 0)%Z || (Z.of_nat (n_classes output) <? m)%Z) with false
    by (symmetry; apply orb_false_iff; split; apply Z.ltb_ge; lia).
  simpl. unfold Torch.expand_as.
  destruct target as [|t0 target']; [congruence|].
  rewrite Hlen, Nat.eqb_refl. simpl. rewrite <- Hlen.
  rewrite eq_transpose.
  apply for_each_ok. intros k Hk.
  pose proof (Hall _ Hk) as Hkb. pose proof (Hle _ Hk) as Hkm.
  unfold Py.slice_to. replace (k <? 0)%Z with false by (symmetry; apply Z.ltb_ge; lia).
  rewrite correct_k_count by (auto; lia).
  reflexivity.
Qed.

(** A rank above the number of classes: [topk] raises. *)
Lemma accuracy_large_k (output : scores) (target : list Z) (topk : list Z) :
  Exists (fun k => (Z.of_nat (n_classes output) < k)%Z) topk ->
  exists e, accuracy output target topk = Raise e.
Proof.
  intros Hex. unfold accuracy.
  destruct (Py.max topk) as [m|e] eqn:Hm; simpl; [|eauto].
  destruct (max_spec _ _ Hm) as [_ Hle]. rewrite Forall_forall in Hle.
  apply Exists_exists in Hex. destruct Hex as (k & Hk & Hgt).
  pose proof (Hle _ Hk). unfold Torch.topk.
  replace (Z.of_nat (n_classes output) <? m)%Z with true
    by (symmetry; apply Z.ltb_lt; lia).
  rewrite orb_true_r. simpl. eauto.
Qed.

(** An empty target: [100.0 / batch_size] raises, unless [max], [topk] or
    [expand_as] did. *)
Lemma accuracy_empty_batch (output : scores) (topk : list Z) :
  exists e, accuracy output [] topk = Raise e.
Proof.
  unfold accuracy.
  destruct (Py.max topk) as [m|e] eqn:Hm; simpl; [|eauto].
  destruct (Torch.topk output m) as [pred|e]; simpl; [|eauto].
  unfold Torch.expand_as. cbn [length].
  destruct (Nat.eqb 0 (length (rows output))); simpl; [|eauto].
  destruct topk as [|k ks]; [discriminate Hm | simpl; eauto].
Qed.

(** An empty batch (no row, no label) and ranks that [topk] accepts: the
    exception is the ZeroDivisionError of [100.0 / batch_size]. *)
Lemma accuracy_empty_batch_division (output : scores) (topk : list Z) (m : Z) :
  rows output = [] ->
  Py.max topk = Ok m ->
  (0 <= m <= Z.of_nat (n_classes output))%Z ->
  accuracy output [] topk = Raise ZeroDivisionError.
Proof.
  intros Hr Hm Hmb. unfold accuracy. rewrite Hm. simpl.
  unfold Torch.topk.
  replace ((m <? 0)%Z || (Z.of_nat (n_classes output) <? m)%Z) with false
    by (symmetry; apply orb_false_iff; split; apply Z.ltb_ge; lia).
  simpl. unfold Torch.expand_as. rewrite Hr. simpl.
  destruct topk as [|k ks]; [discriminate Hm | reflexivity].
Qed.

Lemma percentage_eq (c b : nat) :
  b <> O ->
  inject_Z (Z.of_nat c) * (100 / inject_Z (Z.of_nat b))
  == 100 * inject_Z (Z.of_nat c) / inject_Z (Z.of_nat b).
Proof.
  intros Hb. field. intros H. apply Hb.
  unfold Qeq in H. simpl in H. lia.
Qed.




End Accuracy.

(** ** Rounding to nearest

    [Ieee.round] is monotone, and its relative error is at most 2^-prec. *)

Section Rounding.

Import Ieee.

Lemma pow2_pos (e : Z) : 0 < pow2 e.
Proof.
  apply Qpower_0_lt. reflexivity.
Qed.

Lemma pow2_add (a b : Z) : pow2 (a + b) == pow2 a * pow2 b.
Proof.
  apply Qpower_plus. discriminate.
Qed.

Lemma pow2_le (a b : Z) : (a <= b)%Z -> pow2 a <= pow2 b.
Proof.
  intros H. apply Qpower_le_compat_l; [exact H | discriminate].
Qed.

Lemma pow2_Z (e : Z) : (0 <= e)%Z -> pow2 e == inject_Z (2 ^ e).
Proof.
  intros H. unfold pow2. now rewrite Zpower_Qpower.
Qed.

Lemma pow2_sub (a b : Z) : pow2 (a - b) == pow2 a / pow2 b.
Proof.
  assert (H : pow2 a == pow2 (a - b) * pow2 b).
  { rewrite <- pow2_add. now replace (a - b + b)%Z with a by lia. }
  rewrite H. field. pose proof (pow2_pos b). lra.
Qed.

Lemma Qmake_div (n : Z) (d : positive) : n # d == inject_Z n / inject_Z (Zpos d).
Proof.
  apply Qmake_Qdiv.
Qed.

Lemma ilog2_spec (q : Q) : 0 < q -> pow2 (ilog2 q) <= q /\ q < pow2 (ilog2 q + 1).
Proof.
  intros Hq. destruct q as [n d]. unfold ilog2. cbn [Qnum Qden].
  assert (Hn : (0 < n)%Z) by (unfold Qlt in Hq; simpl in Hq; lia).
  set (a := Z.log2 n). set (b := Z.log2 (Zpos d)).
  assert (Ha : (0 <= a)%Z) by apply Z.log2_nonneg.
  assert (Hb : (0 <= b)%Z) by apply Z.log2_nonneg.
  destruct (Z.log2_spec n Hn) as [Ha1 Ha2]. fold a in Ha1, Ha2.
  destruct (Z.log2_spec (Zpos d) eq_refl) as [Hb1 Hb2]. fold b in Hb1, Hb2.
  rewrite <- Z.add_1_r in Ha2, Hb2.
  assert (Hd : 0 < inject_Z (Zpos d)) by reflexivity.
  assert (Hlo : pow2 (a - b - 1) <= n # d).
  { replace (a - b - 1)%Z with (a - (b + 1))%Z by lia.
    rewrite pow2_sub, !pow2_Z, Qmake_div by lia.
    apply Qle_shift_div_l; [exact Hd|].
    unfold Qdiv. rewrite <- Qmult_assoc, (Qmult_comm (/ _)), Qmult_assoc.
    apply Qle_shift_div_r.
    - rewrite <- (pow2_Z (b + 1)) by lia. apply pow2_pos.
    - rewrite <- !inject_Z_mult, <- Zle_Qle. nia. }
  assert (Hhi : n # d < pow2 (a - b + 1)).
  { replace (a - b + 1)%Z with (a + 1 - b)%Z by lia.
    rewrite pow2_sub, !pow2_Z, Qmake_div by lia.
    apply Qlt_shift_div_r; [exact Hd|].
    unfold Qdiv. rewrite <- Qmult_assoc, (Qmult_comm (/ _)), Qmult_assoc.
    apply Qlt_shift_div_l.
    - rewrite <- (pow2_Z b) by lia. apply pow2_pos.
    - rewrite <- !inject_Z_mult, <- Zlt_Qlt. nia. }
  destruct (Qle_bool (pow2 (a - b)) (n # d)) eqn:E.
  - apply Qle_bool_iff in E. split; assumption.
  - split; [exact Hlo|].
    replace (a - b - 1 + 1)%Z with (a - b)%Z by lia.
    apply Qnot_le_lt. intros H. apply Qle_bool_iff in H. congruence.
Qed.

Lemma ilog2_mono (q q' : Q) : 0 < q -> q <= q' -> (ilog2 q <= ilog2 q')%Z.
Proof.
  intros Hq Hle.
  destruct (ilog2_spec q Hq) as [H1 _].
  destruct (ilog2_spec q') as [_ H2]; [lra|].
  destruct (Z_le_gt_dec (ilog2 q) (ilog2 q')) as [|Hgt]; [assumption|].
  pose proof (pow2_le (ilog2 q' + 1) (ilog2 q) ltac:(lia)). lra.
Qed.

Lemma rne_range (x : Q) : (Qfloor x <= rne x <= Qfloor x + 1)%Z.
Proof.
  unfold rne. destruct (Qcompare _ _); [destruct (Z.even _)| |]; lia.
Qed.

Lemma floor_bounds (x : Q) : inject_Z (Qfloor x) <= x /\ x < inject_Z (Qfloor x) + 1.
Proof.
  split; [apply Qfloor_le|].
  pose proof (Qlt_floor x) as H. rewrite inject_Z_plus in H. exact H.
Qed.

Lemma rne_error (x : Q) : x - (1 # 2) <= inject_Z (rne x) /\ inject_Z (rne x) <= x + (1 # 2).
Proof.
  destruct (floor_bounds x) as [H1 H2]. unfold rne.
  destruct (Qcompare (x - inject_Z (Qfloor x)) (1 # 2)) eqn:E.
  - apply Qeq_alt in E.
    destruct (Z.even _); [|rewrite inject_Z_plus; change (inject_Z 1) with 1]; lra.
  - apply Qlt_alt in E. lra.
  - apply Qgt_alt in E. rewrite inject_Z_plus. change (inject_Z 1) with 1. lra.
Qed.

Lemma rne_mono (x y : Q) : x <= y -> (rne x <= rne y)%Z.
Proof.
  intros Hxy.
  pose proof (Qfloor_resp_le _ _ Hxy) as Hf.
  destruct (Z.eq_dec (Qfloor x) (Qfloor y)) as [E|NE].
  - unfold rne. rewrite <- E.
    assert (Hc : forall z c, (z - inject_Z (Qfloor x) ?= 1 # 2) = c ->
                 match c with
                 | Eq => z - inject_Z (Qfloor x) == 1 # 2
                 | Lt => z - inject_Z (Qfloor x) < 1 # 2
                 | Gt => 1 # 2 < z - inject_Z (Qfloor x)
                 end).
    { intros z [] Hz; [now apply Qeq_alt | now apply Qlt_alt | now apply Qgt_alt]. }
    pose proof (Hc x _ eq_refl) as Ex. pose proof (Hc y _ eq_refl) as Ey.
    destruct (Qcompare (x - inject_Z (Qfloor x)) (1 # 2));
      destruct (Qcompare (y - inject_Z (Qfloor x)) (1 # 2));
      try (destruct (Z.even (Qfloor x))); try lia; exfalso; lra.
  - pose proof (rne_range x). pose proof (rne_range y). lia.
Qed.

Lemma rne_ge_int (n : Z) (x : Q) : inject_Z n <= x -> (n <= rne x)%Z.
Proof.
  intros H. pose proof (Qfloor_resp_le _ _ H) as Hf. rewrite Qfloor_Z in Hf.
  pose proof (rne_range x). lia.
Qed.

Lemma rne_le_int (n : Z) (x : Q) : x <= inject_Z n -> (rne x <= n)%Z.
Proof.
  intros H. pose proof (Qfloor_resp_le _ _ H) as Hf. rewrite Qfloor_Z in Hf.
  destruct (Z.eq_dec (Qfloor x) n) as [E|NE].
  - unfold rne. destruct (floor_bounds x) as [H1 _]. rewrite E in *.
    destruct (Qcompare (x - inject_Z n) (1 # 2)) eqn:Ex.
    + apply Qeq_alt in Ex. exfalso. lra.
    + lia.
    + apply Qgt_alt in Ex. exfalso. lra.
  - pose proof (rne_range x). lia.
Qed.

Lemma round_pos (p : Z) (q : Q) :
  0 < q ->
  round p q == inject_Z (rne (q / pow2 (ilog2 q - p + 1))) * pow2 (ilog2 q - p + 1).
Proof.
  intros Hq. unfold round.
  replace (q ?= 0) with Gt by (symmetry; now apply Qgt_alt).
  apply Qred_correct.
Qed.

Lemma round_zero (p : Z) (q : Q) : q == 0 -> round p q = 0.
Proof.
  intros Hq. unfold round. apply Qeq_alt in Hq. now rewrite Hq.
Qed.

(** The significand of a positive value lies between 2^(p-1) and 2^p. *)
Lemma significand_range (p : Z) (q : Q) :
  (1 <= p)%Z -> 0 < q ->
  let y := q / pow2 (ilog2 q - p + 1) in
  inject_Z (2 ^ (p - 1)) <= y /\ y <= inject_Z (2 ^ p).
Proof.
  intros Hp Hq y. subst y.
  destruct (ilog2_spec q Hq) as [H1 H2].
  pose proof (pow2_pos (ilog2 q - p + 1)) as Hu.
  rewrite <- !pow2_Z by lia. split.
  - apply Qle_shift_div_l; [exact Hu|].
    rewrite <- pow2_add. now replace (p - 1 + (ilog2 q - p + 1))%Z with (ilog2 q) by lia.
  - apply Qle_shift_div_r; [exact Hu|].
    rewrite <- pow2_add. replace (p + (ilog2 q - p + 1))%Z with (ilog2 q + 1)%Z by lia.
    lra.
Qed.

Lemma round_binade (p : Z) (q : Q) :
  (1 <= p)%Z -> 0 < q ->
  pow2 (ilog2 q) <= round p q /\ round p q <= pow2 (ilog2 q + 1).
Proof.
  intros Hp Hq. rewrite (round_pos p q Hq).
  destruct (significand_range p q Hp Hq) as [H1 H2].
  pose proof (pow2_pos (ilog2 q - p + 1)) as Hu.
  apply rne_ge_int in H1. apply rne_le_int in H2.
  rewrite Zle_Qle in H1, H2. rewrite <- !pow2_Z in H1, H2 by lia.
  assert (E1 : pow2 (ilog2 q) == pow2 (p - 1) * pow2 (ilog2 q - p + 1)).
  { rewrite <- pow2_add. now replace (p - 1 + (ilog2 q - p + 1))%Z with (ilog2 q) by lia. }
  assert (E2 : pow2 (ilog2 q + 1) == pow2 p * pow2 (ilog2 q - p + 1)).
  { rewrite <- pow2_add. now replace (p + (ilog2 q - p + 1))%Z with (ilog2 q + 1)%Z by lia. }
  rewrite E1, E2.
  split; (apply Qmult_le_compat_r; [assumption | lra]).
Qed.

Lemma round_nonneg (p : Z) (q : Q) : (1 <= p)%Z -> 0 <= q -> 0 <= round p q.
Proof.
  intros Hp Hq. destruct (Qlt_le_dec 0 q) as [Hpos|Hz].
  - destruct (round_binade p q Hp Hpos) as [H _].
    pose proof (pow2_pos (ilog2 q)). lra.
  - rewrite round_zero; [apply Qle_refl | lra].
Qed.

Lemma round_mono (p : Z) (q q' : Q) :
  (1 <= p)%Z -> 0 <= q -> q <= q' -> round p q <= round p q'.
Proof.
  intros Hp Hq Hle. destruct (Qlt_le_dec 0 q) as [Hpos|Hz].
  - assert (Hpos' : 0 < q') by lra.
    pose proof (ilog2_mono q q' Hpos Hle) as He.
    destruct (Z.eq_dec (ilog2 q) (ilog2 q')) as [E|NE].
    + rewrite (round_pos p q Hpos), (round_pos p q' Hpos'), <- E.
      pose proof (pow2_pos (ilog2 q - p + 1)) as Hu.
      apply Qmult_le_compat_r; [|lra].
      rewrite <- Zle_Qle. apply rne_mono.
      apply Qmult_le_compat_r; [exact Hle|].
      apply Qlt_le_weak, Qinv_lt_0_compat, Hu.
    + destruct (round_binade p q Hp Hpos) as [_ H1].
      destruct (round_binade p q' Hp Hpos') as [H2 _].
      pose proof (pow2_le (ilog2 q + 1) (ilog2 q') ltac:(lia)). lra.
  - rewrite (round_zero p q) by lra. apply round_nonneg; [exact Hp | lra].
Qed.

Lemma round_error (p : Z) (q : Q) :
  (1 <= p)%Z -> 0 <= q ->
  q * (1 - pow2 (- p)) <= round p q /\ round p q <= q * (1 + pow2 (- p)).
Proof.
  intros Hp Hq. destruct (Qlt_le_dec 0 q) as [Hpos|Hz].
  - rewrite (round_pos p q Hpos).
    set (u := pow2 (ilog2 q - p + 1)).
    pose proof (pow2_pos (ilog2 q - p + 1)) as Hu. fold u in Hu.
    destruct (rne_error (q / u)) as [H1 H2].
    destruct (ilog2_spec q Hpos) as [He _].
    assert (Hhalf : u * (1 # 2) <= q * pow2 (- p)).
    { assert (E : u * (1 # 2) == pow2 (ilog2 q) * pow2 (- p)).
      { unfold u. replace (ilog2 q - p + 1)%Z with (ilog2 q + (- p + 1))%Z by lia.
        rewrite !pow2_add. change (pow2 1) with 2. ring. }
      rewrite E. apply Qmult_le_compat_r; [exact He|].
      apply Qlt_le_weak, pow2_pos. }
    assert (Hq' : q == q / u * u) by (field; lra).
    set (y := q / u) in *. set (r := inject_Z (rne y)) in *.
    assert (A : (y - (1 # 2)) * u <= r * u) by (apply Qmult_le_compat_r; lra).
    assert (B : r * u <= (y + (1 # 2)) * u) by (apply Qmult_le_compat_r; lra).
    split; lra.
  - assert (E : q == 0) by lra. rewrite (round_zero p q E), E. split; lra.
Qed.

Lemma inject_nat_le (n m : nat) :
  (n <= m)%nat -> inject_Z (Z.of_nat n) <= inject_Z (Z.of_nat m).
Proof.
  intros H. rewrite <- Zle_Qle. lia.
Qed.

Lemma inject_nat_nonneg (n : nat) : 0 <= inject_Z (Z.of_nat n).
Proof.
  apply (inject_nat_le 0 n). lia.
Qed.

Lemma inject_nat_pos (n : nat) : n <> O -> 0 < inject_Z (Z.of_nat n).
Proof.
  intros H. change 0 with (inject_Z 0). rewrite <- Zlt_Qlt. lia.
Qed.

Lemma Qmult_le_compat_left (x y z : Q) : x <= y -> 0 <= z -> z * x <= z * y.
Proof.
  intros H Hz. rewrite !(Qmult_comm z). now apply Qmult_le_compat_r.
Qed.

(** The float32 factor [100.0 / batch_size]. *)
Lemma factor_bounds (b : nat) :
  b <> O ->
  let x := 100 / inject_Z (Z.of_nat b) in
  let h := float32 (float64 x) in
  0 <= h /\
  x * ((1 - pow2 (-53)) * (1 - pow2 (-24))) <= h /\
  h <= x * ((1 + pow2 (-53)) * (1 + pow2 (-24))).
Proof.
  intros Hb x h.
  assert (Hx : 0 < x).
  { unfold x. apply Qlt_shift_div_l; [now apply inject_nat_pos | reflexivity]. }
  destruct (round_error 53 x ltac:(lia) ltac:(lra)) as [D1 D2].
  assert (Hd : 0 <= float64 x) by (apply round_nonneg; [lia | lra]).
  destruct (round_error 24 (float64 x) ltac:(lia) Hd) as [H1 H2].
  fold (float64 x) in D1, D2. fold (float32 (float64 x)) in H1, H2. fold h in H1, H2.
  assert (U24 : 0 < 1 - pow2 (-24)) by reflexivity.
  assert (V24 : 0 < 1 + pow2 (-24)) by reflexivity.
  split; [apply round_nonneg; [lia | exact Hd]|].
  split.
  - apply Qle_trans with (float64 x * (1 - pow2 (-24))); [|exact H1].
    rewrite Qmult_assoc. apply Qmult_le_compat_r; [exact D1 | lra].
  - apply Qle_trans with (float64 x * (1 + pow2 (-24))); [exact H2|].
    rewrite Qmult_assoc. apply Qmult_le_compat_r; [exact D2 | lra].
Qed.

Lemma factor_nonneg (b : nat) : 0 <= float32 (float64 (100 / inject_Z (Z.of_nat b))).
Proof.
  destruct b as [|b].
  - vm_compute. discriminate.
  - apply (factor_bounds (S b)). discriminate.
Qed.

Lemma scaled_count_float32_nonneg (c b : nat) : 0 <= scaled_count_float32 c b.
Proof.
  unfold scaled_count_float32, float32. apply round_nonneg; [lia|].
  apply Qmult_le_0_compat; [apply inject_nat_nonneg | apply factor_nonneg].
Qed.

Lemma scaled_count_float32_mono (c c' b : nat) :
  (c <= c')%nat -> scaled_count_float32 c b <= scaled_count_float32 c' b.
Proof.
  intros H. unfold scaled_count_float32, float32. apply round_mono; [lia | |].
  - apply Qmult_le_0_compat; [apply inject_nat_nonneg | apply factor_nonneg].
  - apply Qmult_le_compat_r; [now apply inject_nat_le | apply factor_nonneg].
Qed.

Lemma scaled_count_float32_upper (c b : nat) :
  b <> O -> (c <= b)%nat -> scaled_count_float32 c b <= 100 + float32_step_at_100.
Proof.
  intros Hb Hc.
  apply Qle_trans with (scaled_count_float32 b b); [now apply scaled_count_float32_mono|].
  destruct (factor_bounds b Hb) as (H0 & _ & H2).
  set (h := float32 (float64 (100 / inject_Z (Z.of_nat b)))) in *.
  unfold scaled_count_float32. fold h.
  apply Qle_trans with (float32 (100 * ((1 + pow2 (-53)) * (1 + pow2 (-24))))).
  - apply round_mono; [lia | |].
    + apply Qmult_le_0_compat; [apply inject_nat_nonneg | exact H0].
    + pose proof (inject_nat_pos b Hb) as Hp.
      apply Qle_trans with
        (inject_Z (Z.of_nat b)
         * (100 / inject_Z (Z.of_nat b) * ((1 + pow2 (-53)) * (1 + pow2 (-24))))).
      * apply Qmult_le_l; [exact Hp | exact H2].
      * apply Qle_lteq. right. field. lra.
  - vm_compute. discriminate.
Qed.

Lemma scaled_count_float32_full (b : nat) :
  b <> O ->
  100 - float32_step_at_100 <= scaled_count_float32 b b /\ scaled_count_float32 b b <= 100 + float32_step_at_100.
Proof.
  intros Hb. split; [|now apply scaled_count_float32_upper].
  destruct (factor_bounds b Hb) as (H0 & H1 & _).
  set (h := float32 (float64 (100 / inject_Z (Z.of_nat b)))) in *.
  unfold scaled_count_float32. fold h.
  apply Qle_trans with (float32 (100 * ((1 - pow2 (-53)) * (1 - pow2 (-24))))).
  - vm_compute. discriminate.
  - apply round_mono; [lia | vm_compute; discriminate |].
    pose proof (inject_nat_pos b Hb) as Hp.
    apply Qle_trans with
      (inject_Z (Z.of_nat b)
       * (100 / inject_Z (Z.of_nat b) * ((1 - pow2 (-53)) * (1 - pow2 (-24))))).
    + apply Qle_lteq. right. field. lra.
    + apply Qmult_le_l; [exact Hp | exact H1].
Qed.

(** The float32 result is the exact percentage up to a relative error of
    2^-22. *)
Lemma scaled_count_float32_close (c b : nat) :
  b <> O ->
  let x := 100 * inject_Z (Z.of_nat c) / inject_Z (Z.of_nat b) in
  x * (1 - pow2 (-22)) <= scaled_count_float32 c b /\
  scaled_count_float32 c b <= x * (1 + pow2 (-22)).
Proof.
  intros Hb x.
  destruct (factor_bounds b Hb) as (H0 & H1 & H2).
  set (h := float32 (float64 (100 / inject_Z (Z.of_nat b)))) in *.
  pose proof (inject_nat_pos b Hb) as Hp.
  pose proof (inject_nat_nonneg c) as Hc.
  assert (Hch : 0 <= inject_Z (Z.of_nat c) * h) by (now apply Qmult_le_0_compat).
  destruct (round_error 24 _ ltac:(lia) Hch) as [R1 R2].
  fold (float32 (inject_Z (Z.of_nat c) * h)) in R1, R2.
  unfold scaled_count_float32. fold h.
  assert (Hx : 0 <= x).
  { unfold x. apply Qle_shift_div_l; [exact Hp|]. rewrite Qmult_0_l.
    apply Qmult_le_0_compat; [discriminate | exact Hc]. }
  assert (L : x * ((1 - pow2 (-53)) * (1 - pow2 (-24))) <= inject_Z (Z.of_nat c) * h).
  { apply Qle_trans with
      (inject_Z (Z.of_nat c)
       * (100 / inject_Z (Z.of_nat b) * ((1 - pow2 (-53)) * (1 - pow2 (-24))))).
    - apply Qle_lteq. right. unfold x. field. lra.
    - apply Qmult_le_compat_left; [exact H1 | exact Hc]. }
  assert (U : inject_Z (Z.of_nat c) * h <= x * ((1 + pow2 (-53)) * (1 + pow2 (-24)))).
  { apply Qle_trans with
      (inject_Z (Z.of_nat c)
       * (100 / inject_Z (Z.of_nat b) * ((1 + pow2 (-53)) * (1 + pow2 (-24))))).
    - apply Qmult_le_compat_left; [exact H2 | exact Hc].
    - apply Qle_lteq. right. unfold x. field. lra. }
  split.
  - apply Qle_trans with (inject_Z (Z.of_nat c) * h * (1 - pow2 (-24))); [|exact R1].
    apply Qle_trans with (x * ((1 - pow2 (-53)) * (1 - pow2 (-24))) * (1 - pow2 (-24))).
    + rewrite <- Qmult_assoc. apply Qmult_le_compat_left; [|exact Hx].
      vm_compute. discriminate.
    + apply Qmult_le_compat_r; [exact L | vm_compute; discriminate].
  - apply Qle_trans with (inject_Z (Z.of_nat c) * h * (1 + pow2 (-24))); [exact R2|].
    apply Qle_trans with (x * ((1 + pow2 (-53)) * (1 + pow2 (-24))) * (1 + pow2 (-24))).
    + apply Qmult_le_compat_r; [exact U | vm_compute; discriminate].
    + rewrite <- Qmult_assoc. apply Qmult_le_compat_left; [|exact Hx].
      vm_compute. discriminate.
Qed.

End Rounding.

(** ** Rows without equal scores *)

Section Ties.

(** [insert_desc] keeps a list in descending order of the scores. *)
Lemma insert_desc_sorted (x : Z * Q) (l : list (Z * Q)) :
  StronglySorted (fun a b => snd b <= snd a) l ->
  StronglySorted (fun a b => snd b <= snd a) (insert_desc x l).
Proof.
  induction 1 as [|y l Hs IH Hy]; simpl.
  - repeat constructor.
  - destruct (Qle_bool (snd y) (snd x)) eqn:E.
    + apply Qle_bool_iff in E. constructor; [now constructor|].
      constructor; [exact E|].
      eapply Forall_impl; [|exact Hy]. simpl. intros a Ha. lra.
    + assert (Hlt : snd x < snd y).
      { apply Qnot_le_lt. intros H. apply Qle_bool_iff in H. congruence. }
      constructor; [exact IH|].
      eapply Permutation_Forall; [apply Permutation_sym, insert_desc_perm|].
      constructor; [lra | exact Hy].
Qed.

Lemma sort_desc_sorted (l : list (Z * Q)) :
  StronglySorted (fun a b => snd b <= snd a) (sort_desc l).
Proof.
  induction l as [|x l IH]; simpl; [constructor | now apply insert_desc_sorted].
Qed.

Lemma count_cons {A} (f : A -> bool) (a : A) (l : list A) :
  count f (a :: l) = (Nat.b2n (f a) + count f l)%nat.
Proof.
  unfold count. simpl. now destruct (f a).
Qed.

Lemma count_none {A} (f : A -> bool) (l : list A) :
  Forall (fun a => f a = false) l -> count f l = O.
Proof.
  induction 1 as [|a l Ha _ IH]; [reflexivity|].
  now rewrite count_cons, Ha, IH.
Qed.

(** In a list in strictly descending order, an entry is among the [k] first
    exactly when fewer than [k] entries have a higher score. *)
Lemma in_firstn_sorted (l : list (Z * Q)) :
  StronglySorted (fun a b => snd b < snd a) l ->
  NoDup (map fst l) ->
  forall (k : nat) (x : Z * Q),
    In x l ->
    (In (fst x) (firstn k (map fst l)) <-> (count (beats (snd x)) l < k)%nat).
Proof.
  induction 1 as [|a l Hs IH Ha]; intros ND k x Hin; [contradiction|].
  inversion ND as [|? ? Hna ND']; subst.
  rewrite count_cons. destruct k as [|k]; [simpl; split; [tauto | lia]|].
  simpl firstn. destruct Hin as [->|Hin].
  - assert (E : beats (snd x) x = false).
    { unfold beats. apply negb_false_iff, Qle_bool_iff, Qle_refl. }
    rewrite E, count_none; [simpl; split; [lia | now left]|].
    eapply Forall_impl; [|exact Ha]. simpl. intros y Hy.
    unfold beats. apply negb_false_iff, Qle_bool_iff. lra.
  - rewrite Forall_forall in Ha. pose proof (Ha x Hin) as Hlt.
    assert (E : beats (snd x) a = true).
    { unfold beats. apply negb_true_iff. destruct (Qle_bool _ _) eqn:Eb; [|reflexivity].
      apply Qle_bool_iff in Eb. lra. }
    rewrite E. simpl Nat.b2n.
    assert (Hne : fst a <> fst x).
    { intros Heq. apply Hna. rewrite Heq. now apply in_map. }
    specialize (IH ND' k x Hin). split.
    + intros [Heq|H]; [contradiction|]. apply IH in H. lia.
    + intros H. right. apply IH. lia.
Qed.

Lemma count_perm {A} (f : A -> bool) (l l' : list A) :
  Permutation l l' -> count f l = count f l'.
Proof.
  intros H. rewrite !count_b2n. now apply Permutation_list_sum, Permutation_map.
Qed.

Lemma enumerate_snd (r : list Q) : map snd (enumerate r) = r.
Proof.
  unfold enumerate.
  assert (H : forall (a : list Z) (b : list Q),
             length a = length b -> map snd (combine a b) = b).
  { induction a as [|x a IH]; intros [|y b]; simpl; intros E; try discriminate; auto.
    f_equal. apply IH. congruence. }
  apply H. now rewrite length_map, length_seq.
Qed.

(** Without equal scores the descending order is strict. *)
Lemma sort_desc_strict (row : list Q) :
  tie_free row ->
  StronglySorted (fun a b => snd b < snd a) (sort_desc (enumerate row)).
Proof.
  intros Htf.
  pose proof (sort_desc_sorted (enumerate row)) as Hs.
  assert (ND : NoDup (map fst (sort_desc (enumerate row)))).
  { apply (argsort_desc_NoDup row). }
  assert (Hin : forall x, In x (sort_desc (enumerate row)) -> In x (enumerate row)).
  { intros x. apply Permutation_in, sort_desc_perm. }
  induction Hs as [|a l Hs IH Ha]; [constructor|].
  inversion ND as [|? ? Hna ND']; subst.
  constructor; [apply IH; auto; intros; apply Hin; now right|].
  apply Forall_forall. intros y Hy.
  rewrite Forall_forall in Ha. pose proof (Ha y Hy) as Hle.
  destruct (Qeq_dec (snd y) (snd a)) as [Heq|Hne]; [|].
  - exfalso.
    destruct a as [za qa], y as [zy qy]. simpl in *.
    destruct (enumerate_In row za qa (Hin _ (or_introl eq_refl))) as (i & Hi & -> & ->).
    destruct (enumerate_In row zy qy (Hin _ (or_intror Hy))) as (j & Hj & -> & ->).
    assert (j = i) by (apply Htf; assumption). subst j.
    apply Hna. apply (in_map fst) in Hy. exact Hy.
  - apply Qle_lteq in Hle. destruct Hle as [Hlt|Heq]; [exact Hlt | contradiction].
Qed.

(** On a row without equal scores, the label is among the [k] first indices
    of the ranking exactly when it is a class index that fewer than [k]
    classes beat. *)
Lemma label_in_topk_among (k : nat) (row : list Q) (label : Z) :
  tie_free row -> label_in_topk k row label = among_top k row label.
Proof.
  intros Htf. unfold label_in_topk, among_top, argsort_desc.
  destruct ((0 <=? label)%Z && (label <? Z.of_nat (length row))%Z) eqn:Hv.
  - apply andb_true_iff in Hv. destruct Hv as [H0 H1].
    apply Z.leb_le in H0. apply Z.ltb_lt in H1.
    set (x := (label, nth (Z.to_nat label) row 0)).
    assert (Hx : In x (sort_desc (enumerate row))).
    { eapply Permutation_in; [apply Permutation_sym, sort_desc_perm|].
      unfold x. replace label with (Z.of_nat (Z.to_nat label)) at 1 by lia.
      apply In_enumerate. lia. }
    pose proof (in_firstn_sorted _ (sort_desc_strict row Htf)
                  (argsort_desc_NoDup row) k x Hx) as Hiff.
    assert (Hc : count (beats (snd x)) (sort_desc (enumerate row)) = n_higher row label).
    { rewrite (count_perm _ _ _ (sort_desc_perm (enumerate row))).
      unfold n_higher. rewrite <- (enumerate_snd row) at 2.
      rewrite count_map. reflexivity. }
    rewrite Hc in Hiff. simpl fst in Hiff. simpl andb.
    destruct (Nat.ltb_spec (n_higher row label) k) as [Hlt|Hge].
    + apply existsb_exists. exists label. split; [|apply Z.eqb_refl].
      apply Hiff. exact Hlt.
    + destruct (existsb _ _) eqn:E; [|reflexivity].
      apply existsb_exists in E. destruct E as (z & Hz & Hzl).
      apply Z.eqb_eq in Hzl. subst z. apply Hiff in Hz. lia.
  - simpl. destruct (existsb _ _) eqn:E; [|reflexivity].
    apply existsb_exists in E. destruct E as (z & Hz & Hzl).
    apply Z.eqb_eq in Hzl. subst z.
    assert (Hin : In label (map Z.of_nat (seq 0 (length row)))).
    { eapply Permutation_in; [apply argsort_desc_perm|].
      rewrite <- (firstn_skipn k (argsort_desc row)). apply in_or_app. now left. }
    apply in_map_iff in Hin. destruct Hin as (j & <- & Hj). apply in_seq in Hj.
    apply andb_false_iff in Hv. destruct Hv as [Hv|Hv].
    + apply Z.leb_gt in Hv. lia.
    + apply Z.ltb_ge in Hv. lia.
Qed.

Lemma n_correct_among (k : nat) (output : scores) (target : list Z) :
  Forall tie_free (rows output) ->
  n_correct k output target = n_among_top k output target.
Proof.
  intros Htf. unfold n_correct, n_among_top, count. f_equal.
  apply filter_ext_in. intros [r l] Hin. simpl.
  apply label_in_topk_among.
  rewrite Forall_forall in Htf. apply Htf. eapply in_combine_l, Hin.
Qed.

End Ties.

(** ** The epoch runner *)

Section EpochRunner.

Variable X : Type.
Variable forward : bool -> list Float.t -> X -> scores.
Variable backward : bool -> list Float.t -> X -> list Z -> Q -> list Float.t.

Lemma same_but_training_refl (st : PState) : same_but_training st st.
Proof.
  repeat split.
Qed.

Lemma same_but_training_trans (a b c : PState) :
  same_but_training a b -> same_but_training b c -> same_but_training a c.
Proof.
  unfold same_but_training. intuition congruence.
Qed.

Lemma set_mode_eval_same (st1 st2 : PState) :
  same_but_training st1 st2 -> set_mode "Eval" st1 = set_mode "Eval" st2.
Proof.
  destruct st1 as [[p1 g1 t1] o1 s1 out1], st2 as [[p2 g2 t2] o2 s2 out2].
  unfold same_but_training, set_mode. simpl.
  intros (-> & -> & -> & -> & ->). reflexivity.
Qed.

Lemma pass_batch_eval_same (loss_fn : LossFn) (st1 st2 : PState)
      (acc : Sums) (i : nat) (b : Batch X) :
  same_but_training st1 st2 ->
  pass_batch forward backward loss_fn "Eval" st1 acc i b
  = pass_batch forward backward loss_fn "Eval" st2 acc i b.
Proof.
  intros H. unfold pass_batch. destruct b as [x y].
  now rewrite (set_mode_eval_same _ _ H).
Qed.

Lemma pass_batch_eval_frame (loss_fn : LossFn) (st : PState)
      (acc : Sums) (i : nat) (b : Batch X) :
  same_but_training st (fst (pass_batch forward backward loss_fn "Eval" st acc i b)).
Proof.
  unfold pass_batch. destruct b as [x y].
  destruct (accuracy _ _ _); simpl; repeat split.
Qed.

Lemma pass_loop_eval_frame (loss_fn : LossFn) (loader : list (Batch X)) :
  forall (st : PState) (acc : Sums) (i : nat),
    same_but_training st (fst (pass_loop forward backward loss_fn "Eval" st acc i loader)).
Proof.
  induction loader as [|b rest IH]; intros st acc i; simpl.
  - apply same_but_training_refl.
  - pose proof (pass_batch_eval_frame loss_fn st acc i b) as Hb.
    destruct (pass_batch forward backward loss_fn "Eval" st acc i b) as [st' [acc'|e]];
      simpl in *; [|exact Hb].
    eapply same_but_training_trans; [exact Hb | apply IH].
Qed.

Lemma pass_loop_eval_same (loss_fn : LossFn) (loader : list (Batch X))
      (st1 st2 : PState) (acc : Sums) (i : nat) :
  same_but_training st1 st2 ->
  snd (pass_loop forward backward loss_fn "Eval" st1 acc i loader)
  = snd (pass_loop forward backward loss_fn "Eval" st2 acc i loader).
Proof.
  intros H. destruct loader as [|b rest]; simpl; [reflexivity|].
  now rewrite (pass_batch_eval_same loss_fn st1 st2 acc i b H).
Qed.

(** [pass_epoch] is its loop followed by the three divisions. *)
Lemma pass_epoch_fst (st : PState) (loader : list (Batch X)) (loss_fn : LossFn)
      (mode : string) :
  fst (pass_epoch forward backward st loader loss_fn mode)
  = fst (pass_loop forward backward loss_fn mode st
                   (mkSums (Float.Fin 0) 0 0 None) 0 loader).
Proof.
  unfold pass_epoch.
  destruct (pass_loop _ _ _ _ _ _ _ _) as [st' [acc|e]]; [|reflexivity].
  now destruct (i_batch acc).
Qed.

Lemma pass_epoch_snd_ext (st1 st2 : PState) (loader : list (Batch X))
      (loss_fn : LossFn) (mode : string) :
  snd (pass_loop forward backward loss_fn mode st1 (mkSums (Float.Fin 0) 0 0 None) 0 loader)
  = snd (pass_loop forward backward loss_fn mode st2 (mkSums (Float.Fin 0) 0 0 None) 0 loader) ->
  snd (pass_epoch forward backward st1 loader loss_fn mode)
  = snd (pass_epoch forward backward st2 loader loss_fn mode).
Proof.
  unfold pass_epoch.
  destruct (pass_loop _ _ _ _ st1 _ _ _) as [s1 [acc1|e1]];
    destruct (pass_loop _ _ _ _ st2 _ _ _) as [s2 [acc2|e2]]; simpl;
    intros E; try discriminate; injection E as <-.
  - now destruct (i_batch acc1).
  - reflexivity.
Qed.

Lemma for_each_length {A B} (f : A -> result B) (ks : list A) (rs : list B) :
  Py.for_each f ks = Ok rs -> length rs = length ks.
Proof.
  revert rs. induction ks as [|k ks IH]; simpl; intros rs.
  - now intros [= <-].
  - destruct (f k); simpl; [|discriminate].
    destruct (Py.for_each f ks); simpl; [|discriminate].
    intros [= <-]. simpl. f_equal. now apply IH.
Qed.

Lemma accuracy_length (output : scores) (target topk : list Z) (res : list Q) :
  accuracy output target topk = Ok res -> length res = length topk.
Proof.
  unfold accuracy.
  destruct (Py.max topk); simpl; [|discriminate].
  destruct (Torch.topk output a); simpl; [|discriminate].
  destruct (Torch.expand_as _ _ _); simpl; [|discriminate].
  apply for_each_length.
Qed.

(** A batch in a mode that is neither "Train" nor "Eval": the message, then
    the computation of an evaluation pass in the current mode of the model. *)
Lemma pass_batch_other_mode (loss_fn : LossFn) (mode : string) (st : PState)
      (acc : Sums) (i : nat) (b : Batch X) :
  mode <> "Train"%string -> mode <> "Eval"%string ->
  accuracy_accepts forward (training (model st)) (params (model st)) b ->
  exists acc',
    pass_batch forward backward loss_fn mode st acc i b
    = (with_mode_errors st 1, Ok acc') /\
    i_batch acc' = Some i /\
    forall st_e, model st_e = model st -> training (model st) = false ->
      pass_batch forward backward loss_fn "Eval" st_e acc i b = (st_e, Ok acc').
Proof.
  intros HT HE Hacc. destruct b as [x y].
  unfold accuracy_accepts in Hacc. simpl in Hacc.
  unfold pass_batch, set_mode.
  apply String.eqb_neq in HT, HE. rewrite HT, HE. simpl.
  destruct (accuracy (forward (training (model st)) (params (model st)) x) y [1; 5]%Z)
    as [tops|e] eqn:Ea; [|discriminate].
  pose proof (accuracy_length _ _ _ _ Ea) as Hl.
  destruct tops as [|a1 [|a5 [|? ?]]]; try discriminate.
  simpl. eexists. split; [reflexivity|]. split; [reflexivity|].
  intros st_e Hm Ht.
  destruct st_e as [m_e o_e s_e out_e]. simpl in Hm. subst m_e.
  destruct (model st) as [p g t]. simpl in *. subst t.
  rewrite Ea. reflexivity.
Qed.

Lemma with_mode_errors_S (st : PState) (n : nat) :
  with_mode_errors (with_mode_errors st 1) n = with_mode_errors st (S n).
Proof.
  unfold with_mode_errors. simpl. now rewrite <- app_assoc.
Qed.

Lemma pass_loop_other_mode (loss_fn : LossFn) (mode : string)
      (loader : list (Batch X)) :
  mode <> "Train"%string -> mode <> "Eval"%string ->
  forall (st : PState) (acc : Sums) (i : nat),
    Forall (accuracy_accepts forward (training (model st)) (params (model st))) loader ->
    exists acc',
      pass_loop forward backward loss_fn mode st acc i loader
      = (with_mode_errors st (length loader), Ok acc') /\
      (loader <> [] -> exists j, i_batch acc' = Some j) /\
      forall st_e, model st_e = model st -> training (model st) = false ->
        pass_loop forward backward loss_fn "Eval" st_e acc i loader = (st_e, Ok acc').
Proof.
  intros HT HE. induction loader as [|b rest IH]; intros st acc i Hall; simpl.
  - exists acc. split; [|split; [congruence | reflexivity]].
    unfold with_mode_errors. simpl. rewrite app_nil_r. now destruct st.
  - inversion Hall as [|? ? Hb Hrest]; subst.
    destruct (pass_batch_other_mode loss_fn mode st acc i b HT HE Hb)
      as (acc1 & E1 & Hi1 & Heval1).
    rewrite E1.
    destruct (IH (with_mode_errors st 1) acc1 (S i) Hrest) as (acc' & E & Hi & Heval).
    exists acc'. rewrite E, with_mode_errors_S. split; [reflexivity|]. split.
    + intros _. destruct rest as [|b' rest'].
      * simpl in E. injection E as _ <-. eauto.
      * apply Hi. discriminate.
    + intros st_e Hm Ht. rewrite (Heval1 st_e Hm Ht). apply Heval; assumption.
Qed.

End EpochRunner.

(** ** The orchestrator *)

Section Orchestrator.

Variable X : Type.
Variable forward : bool -> list Float.t -> X -> scores.
Variable backward : bool -> list Float.t -> X -> list Z -> Q -> list Float.t.
Variable CrossEntropyLS : Q -> LossFn.

Lemma append_inj_l (s a b : string) : (s ++ a = s ++ b)%string -> a = b.
Proof.
  induction s as [|c s IH]; simpl; [auto|].
  intros [= H]. auto.
Qed.

(** The numbered checkpoints never overwrite the latest one. *)
Lemma numbered_path_not_latest (args : Args) (n : nat) :
  numbered_path args n <> latest_path args.
Proof.
  unfold numbered_path, latest_path. intros H.
  apply append_inj_l in H. simpl in H. discriminate.
Qed.

(** What one epoch does to the files and to the locals of [train]. *)
Lemma epoch_body_policy (args : Args) (loss_fn : LossFn)
      (train_loader val_loader : list (Batch X))
      (t t' : TState) (loc loc' : Locals) (epoch : nat) (fl : Flow) :
  epoch_body forward backward args loss_fn train_loader val_loader t loc epoch
  = (t', Ok (loc', fl)) ->
  exists v,
    val_loss_history loc' = val_loss_history loc ++ [v] /\
    min_val_loss loc' = min_val_loss loc /\
    if Float.leb v (min_val_loss loc)
    then stop loc' = stop loc /\ fl = Continue /\
         saved t' = saved t
                    ++ [(numbered_path args (epoch + 1), params (model (pstate t')))]
    else stop loc' = (stop loc + 1)%nat /\ saved t' = saved t /\
         fl = if Nat.ltb 5 (stop loc') then Break else Continue.
Proof.
  unfold epoch_body.
  destruct (pass_epoch forward backward _ train_loader loss_fn "Train")
    as [st1 [[[train_loss t1] t5]|e]]; [|discriminate].
  destruct (pass_epoch forward backward st1 val_loader loss_fn "Eval")
    as [st2 [[[val_loss v1] v5]|e]]; [|discriminate].
  destruct (scheduler_step _ val_loss _) as [sch o].
  cbn [min_val_loss stop val_loss_history].
  intros H. exists val_loss.
  destruct (Float.leb val_loss (min_val_loss loc)).
  - injection H as <- <- <-. simpl. auto.
  - destruct (Nat.ltb 5 (stop loc + 1)) eqn:E; injection H as <- <- <-; simpl;
      rewrite E; auto.
Qed.



End Orchestrator.

(** * The claims *)

(** ** AccuracyEvaluator *)

Lemma batch3_wf : wf batch3.
Proof.
  repeat constructor.
Defined.




(** C5.  [accuracy] raises whenever a requested k exceeds the number of
    classes of the scores (torch's [topk] raises a RuntimeError), or the
    batch size is 0 ([target.view(1, -1)] raises a RuntimeError on an empty
    target, before [100.0 / batch_size] is reached). *)
Theorem accuracy_invalid_input (output : scores) (target topk : list Z) :
  Exists (fun k => (Z.of_nat (n_classes output) < k)%Z) topk \/ length target = O ->
  exists e, accuracy output target topk = Raise e.
Proof.
  intros [Hk|Hb].
  - now apply accuracy_large_k.
  - destruct target; [apply accuracy_empty_batch | discriminate].
Qed.

(** Rank 7 over six classes, and an empty batch. *)
Lemma accuracy_invalid_input_witness :
  (exists e, accuracy batch3 [1; 0; 3]%Z [1; 7]%Z = Raise e) /\
  (exists e, accuracy (mkScores 6 []) [] [1; 5]%Z = Raise e).
Proof.
  split.
  - apply accuracy_invalid_input. left.
    apply Exists_cons_tl, Exists_cons_hd. simpl. lia.
  - apply accuracy_invalid_input. right. reflexivity.
Defined.




(** ** EpochRunner *)

(** C6.  On a loader that yields no batch, [pass_epoch] raises in every
    mode: the loop variable [i_batch] is unbound when the sums are divided by
    [i_batch + 1].  Nothing was changed and no metrics are returned. *)
Theorem pass_epoch_empty_loader
        (X : Type) (forward : bool -> list Float.t -> X -> scores)
        (backward : bool -> list Float.t -> X -> list Z -> Q -> list Float.t)
        (st : PState) (loss_fn : LossFn) (mode : string) :
  pass_epoch forward backward st [] loss_fn mode
  = (st, Raise (UnboundLocalError "i_batch")).
Proof.
  unfold pass_epoch. simpl. reflexivity.
Qed.

(** C7, as stated, fails: in mode "Test" the pass runs to its end and returns
    metrics. *)
Lemma pass_epoch_bad_mode_returns :
  "Test"%string <> "Train"%string /\ "Test"%string <> "Eval"%string /\
  pass_epoch Toy.forward (Toy.backward Toy.steady_slope) (Toy.pstate0 1) Toy.val_loader
             (Toy.loss Toy.steady_loss 0) "Test"
  = (mkPState (Toy.model0 1) (mkSGD 1 0 0 None) GradScaler_default
              ["error model mode!"%string],
     Ok (Float.Fin 1, 0, 100)).
Proof.
  split; [discriminate|]. split; [discriminate|]. vm_compute. reflexivity.
Qed.

(** C7, amended.  In a mode other than "Train" and "Eval", [pass_epoch] on a
    non-empty loader whose batches [accuracy] accepts does not abort: it
    prints "error model mode!" once per batch, leaves the model (its mode
    included), the optimizer and the scaler as they were, and returns
    metrics, the ones of an "Eval" pass when the model is in eval mode. *)
Theorem pass_epoch_other_mode_continues
        (X : Type) (forward : bool -> list Float.t -> X -> scores)
        (backward : bool -> list Float.t -> X -> list Z -> Q -> list Float.t)
        (st : PState) (loader : list (Batch X)) (loss_fn : LossFn) (mode : string) :
  mode <> "Train"%string ->
  mode <> "Eval"%string ->
  loader <> [] ->
  Forall (accuracy_accepts forward (training (model st)) (params (model st))) loader ->
  exists metrics,
    pass_epoch forward backward st loader loss_fn mode
    = (with_mode_errors st (length loader), Ok metrics) /\
    (training (model st) = false ->
     pass_epoch forward backward st loader loss_fn "Eval" = (st, Ok metrics)).
Proof.
  intros HT HE Hne Hall.
  destruct (pass_loop_other_mode X forward backward loss_fn mode loader HT HE
              st (mkSums (Float.Fin 0) 0 0 None) 0%nat Hall)
    as (acc & E & Hi & Heval).
  destruct (Hi Hne) as [j Hj].
  unfold pass_epoch. rewrite E, Hj.
  eexists. split; [reflexivity|].
  intros Ht. rewrite (Heval st eq_refl Ht), Hj. reflexivity.
Qed.

(** The validation batch of the small model in mode "Test". *)
Lemma pass_epoch_other_mode_continues_witness :
  exists metrics,
    pass_epoch Toy.forward (Toy.backward Toy.steady_slope) (Toy.pstate0 1) Toy.val_loader
               (Toy.loss Toy.steady_loss 0) "Test"
    = (with_mode_errors (Toy.pstate0 1) 1, Ok metrics) /\
    (training (model (Toy.pstate0 1)) = false ->
     pass_epoch Toy.forward (Toy.backward Toy.steady_slope) (Toy.pstate0 1) Toy.val_loader
                (Toy.loss Toy.steady_loss 0) "Eval"
     = (Toy.pstate0 1, Ok metrics)).
Proof.
  apply (pass_epoch_other_mode_continues unit Toy.forward
           (Toy.backward Toy.steady_slope) (Toy.pstate0 1) Toy.val_loader
           (Toy.loss Toy.steady_loss 0) "Test").
  - discriminate.
  - discriminate.
  - discriminate.
  - repeat constructor.
Defined.

(** C9.  An "Eval" pass changes neither the parameters of the model, nor
    their gradients, nor the optimizer, nor the scaler, and a second "Eval"
    pass over the same batches, started from the state the first one left,
    returns the same result (loss, top-1, top-5). *)
Theorem pass_epoch_eval_repeatable
        (X : Type) (forward : bool -> list Float.t -> X -> scores)
        (backward : bool -> list Float.t -> X -> list Z -> Q -> list Float.t)
        (st : PState) (loader : list (Batch X)) (loss_fn : LossFn) :
  let run1 := pass_epoch forward backward st loader loss_fn "Eval" in
  let run2 := pass_epoch forward backward (fst run1) loader loss_fn "Eval" in
  params (model (fst run1)) = params (model st) /\
  grad (model (fst run1)) = grad (model st) /\
  optimizer (fst run1) = optimizer st /\
  scaler (fst run1) = scaler st /\
  snd run2 = snd run1.
Proof.
  intros run1 run2.
  assert (Hframe : same_but_training st (fst run1)).
  { unfold run1. rewrite pass_epoch_fst. apply pass_loop_eval_frame. }
  destruct Hframe as (Hp & Hg & Ho & Hs & Hout).
  repeat split; try assumption.
  unfold run2. apply pass_epoch_snd_ext. symmetry.
  apply pass_loop_eval_same. repeat split; assumption.
Qed.

(** The scaler alone does what section 4.2 says on an overflow: the update
    is skipped and the scale factor is halved. *)
Lemma scaler_step_skips (s : GradScaler) (o : SGD) (m : Model) :
  grads_finite (unscale s m) = false ->
  scaler_step s o m
  = (mkScaler (Qred (scale_factor s * (1 # 2))) 0 (growth_interval s) (growth_factor s),
     o, unscale s m) /\
  params (unscale s m) = params m.
Proof.
  intros H. unfold scaler_step. rewrite H. split; reflexivity.
Qed.

(** In a "Train" batch the update skipped by the scaler is applied all the
    same: after an overflow the parameters are those that [optimizer.step()]
    computes from the non-finite gradients. *)
Lemma train_batch_overflow
      (X : Type) (backward : bool -> list Float.t -> X -> list Z -> Q -> list Float.t)
      (st : PState) (x : X) (y : list Z) :
  let st0 := mkPState (zero_grad (model st)) (optimizer st) (scaler st) (stdout st) in
  let st1 := scaled_backward backward st0 x y in
  grads_finite (unscale (scaler st) (model st1)) = false ->
  model (train_batch backward st x y)
  = snd (sgd_step (optimizer st) (unscale (scaler st) (model st1))).
Proof.
  intros st0 st1 H. unfold train_batch. fold st0. fold st1.
  change (scaler st1) with (scaler st). change (optimizer st1) with (optimizer st).
  destruct (scaler_step_skips (scaler st) (optimizer st) (model st1) H) as [-> _].
  now destruct (sgd_step (optimizer st) (unscale (scaler st) (model st1))).
Qed.

(** C3 (code bug).  A "Train" batch whose gradient is infinite: after
    [scaler.step] has skipped the update and halved the scale factor, the
    unconditional [model_optimizer.step()] of line 186 applies the infinite
    gradient, and the parameter 1 becomes -inf. *)
Theorem pass_epoch_train_overflow_changes_params :
  let st := Toy.pstate0 1 in
  let run := pass_epoch Toy.forward (Toy.backward Toy.overflow_slope) st
                        Toy.train_loader (Toy.loss Toy.steady_loss 0) "Train" in
  params (model st) = [Float.Fin 1] /\
  grad (model (fst run)) = Some [Float.PInf] /\
  scale_factor (scaler (fst run)) = 32768 /\
  params (model (fst run)) = [Float.NInf] /\
  snd run = Ok (Float.Fin (-1 # 10), 100, 100).
Proof.
  vm_compute. repeat split; reflexivity.
Qed.

(** ** TrainingOrchestrator *)


(** Both ways out of the loop are taken: the range is exhausted when the
    validation loss is a number, and six NaN losses stop the run early. *)
Example train_exhausts_range :
  let run := Toy.run Toy.steady_slope (Toy.loss Toy.steady_loss) 2 in
  map fst (saved (fst run))
  = ["model/model_test/checkpoint.pth.tar";
     "model/model_test/checkpoint_0001.pth.tar";
     "model/model_test/checkpoint_0002.pth.tar";
     "model/model_test/checkpoint.pth.tar"]%string /\
  exists loc, snd run = Ok (loc, Continue).
Proof.
  vm_compute. split; [reflexivity | eexists; reflexivity].
Qed.

Example train_stops_early_on_nan :
  let run := Toy.run Toy.zero_slope Toy.nan_loss 100 in
  map fst (saved (fst run))
  = ["model/model_test/checkpoint.pth.tar";
     "model/model_test/checkpoint.pth.tar"]%string /\
  exists loc, snd run = Ok (loc, Break) /\
              stop loc = 6%nat /\ length (val_loss_history loc) = 6%nat.
Proof.
  vm_compute. split; [reflexivity | eexists; repeat split].
Qed.

(** What the comparison of line 282 decides: [min_val_loss] is still
    [math.inf], so only a NaN loss takes the [else] branch. *)
Lemma leb_inf (v : Float.t) : Float.leb v Float.inf = negb (Float.is_nan v).
Proof.
  now destruct v.
Qed.

Section Policy.

Variable X : Type.
Variable forward : bool -> list Float.t -> X -> scores.
Variable backward : bool -> list Float.t -> X -> list Z -> Q -> list Float.t.

(** The loop never assigns [min_val_loss] and never resets [stop]: with
    [min_val_loss] at [math.inf], [stop] counts the NaN validation losses. *)
Lemma epoch_loop_policy (args : Args) (loss_fn : LossFn)
      (train_loader val_loader : list (Batch X)) (range : list nat) :
  forall (t t' : TState) (loc loc' : Locals) (fl : Flow),
    min_val_loss loc = Float.inf ->
    (stop loc <= 5)%nat ->
    epoch_loop forward backward args loss_fn train_loader val_loader t loc range
    = (t', Ok (loc', fl)) ->
    exists vs,
      val_loss_history loc' = val_loss_history loc ++ vs /\
      min_val_loss loc' = Float.inf /\
      stop loc' = (stop loc + count Float.is_nan vs)%nat /\
      map fst (saved t')
      = map fst (saved t)
        ++ map (fun e => numbered_path args (e + 1)) (checkpoint_epochs range vs) /\
      match fl with
      | Continue => length vs = length range /\ (stop loc' <= 5)%nat
      | Break => stop loc' = 6%nat
      end.
Proof.
  induction range as [|epoch rest IH]; intros t t' loc loc' fl Hmin Hstop; simpl.
  - intros [= <- <- <-]. exists []. rewrite !app_nil_r. simpl.
    repeat split; auto; lia.
  - destruct (epoch_body forward backward args loss_fn train_loader val_loader
                         t loc epoch) as [t1 [[loc1 fl1]|e]] eqn:Eb; [|discriminate].
    destruct (epoch_body_policy X forward backward args loss_fn train_loader
                val_loader t t1 loc loc1 epoch fl1 Eb) as (v & Hv & Hm1 & Hpol).
    rewrite Hmin, leb_inf in Hpol.
    assert (Hcount : forall vs, count Float.is_nan (v :: vs)
                                = (Nat.b2n (Float.is_nan v) + count Float.is_nan vs)%nat).
    { intros vs. unfold count. simpl. now destruct (Float.is_nan v). }
    assert (Hkept : forall vs, checkpoint_epochs (epoch :: rest) (v :: vs)
                               = if Float.is_nan v then checkpoint_epochs rest vs
                                 else epoch :: checkpoint_epochs rest vs).
    { intros vs. unfold checkpoint_epochs. simpl. now destruct (Float.is_nan v). }
    destruct (Float.is_nan v) eqn:Hnan; simpl in Hpol.
    + destruct Hpol as (Hs1 & Hsv & Hfl1).
      destruct (Nat.ltb 5 (stop loc1)) eqn:E5; subst fl1.
      * intros [= <- <- <-]. exists [v]. rewrite Hcount, Hkept, Hsv.
        apply Nat.ltb_lt in E5. unfold checkpoint_epochs, count. simpl.
        rewrite combine_nil. simpl. rewrite app_nil_r.
        split; [exact Hv|]. split; [congruence|]. split; [lia|]. split; [reflexivity|].
        simpl in *. lia.
      * apply Nat.ltb_ge in E5. intros Hloop.
        destruct (IH t1 t' loc1 loc' fl ltac:(congruence) E5 Hloop)
          as (vs & Hvs & Hm' & Hs' & Hsaved & Hfl).
        exists (v :: vs). rewrite Hcount, Hkept. simpl.
        split; [rewrite Hvs, Hv, <- app_assoc; reflexivity|].
        split; [exact Hm'|]. split; [lia|]. split; [now rewrite Hsaved, Hsv|].
        destruct fl; [|exact Hfl]. destruct Hfl. split; [simpl; lia | assumption].
    + destruct Hpol as (Hs1 & -> & Hsv). intros Hloop.
      destruct (IH t1 t' loc1 loc' fl ltac:(congruence) ltac:(lia) Hloop)
        as (vs & Hvs & Hm' & Hs' & Hsaved & Hfl).
      exists (v :: vs). rewrite Hcount, Hkept. simpl.
      split; [rewrite Hvs, Hv, <- app_assoc; reflexivity|].
      split; [exact Hm'|]. split; [lia|].
      split; [rewrite Hsaved, Hsv, map_app, <- app_assoc; reflexivity|].
      destruct fl; [|exact Hfl]. destruct Hfl. split; [simpl; lia | assumption].
Qed.

(** X14.  On return from [train], [min_val_loss] is still [math.inf] and
    [stop] is the number of NaN validation losses: a numbered checkpoint was saved at
    every epoch whose loss is not NaN, and the run stopped early exactly at
    its sixth NaN loss, whatever the other losses were. *)
Lemma train_policy (CrossEntropyLS : Q -> LossFn) (args : Args) (m : Model)
      (train_loader val_loader : list (Batch X)) :
  let run := train forward backward CrossEntropyLS args m train_loader val_loader in
  match snd run with
  | Ok (loc, fl) =>
      min_val_loss loc = Float.inf /\
      stop loc = count Float.is_nan (val_loss_history loc) /\
      map fst (saved (fst run))
      = [latest_path args]
        ++ map (fun e => numbered_path args (e + 1))
               (checkpoint_epochs (seq 0 (Z.to_nat (epochs args))) (val_loss_history loc))
        ++ [latest_path args] /\
      match fl with
      | Continue => length (val_loss_history loc) = Z.to_nat (epochs args)
      | Break => stop loc = 6%nat
      end
  | Raise _ => True
  end.
Proof.
  intros run. unfold run, train.
  match goal with
  | |- context [epoch_loop _ _ _ ?f ?tl ?vl ?t ?loc ?r] =>
      pose proof (fun t' loc' fl => epoch_loop_policy args f tl vl r t t' loc loc' fl
                                      eq_refl (Nat.le_0_l 5)) as H;
      destruct (epoch_loop forward backward args f tl vl t loc r)
        as [t1 [[loc1 fl]|e]] eqn:E
  end; simpl; [|exact I].
  destruct (H _ _ _ eq_refl) as (vs & Hvs & Hmin & Hstop & Hsaved & Hfl).
  clear H E. simpl in Hvs, Hstop, Hsaved. rewrite Hvs.
  split; [exact Hmin|]. split; [exact Hstop|].
  split; [rewrite map_app, Hsaved; reflexivity|].
  destruct fl; [|exact Hfl]. destruct Hfl as [Hlen _].
  now rewrite Hlen, length_seq.
Qed.

End Policy.

(** C1 (code bug).  Three epochs with validation losses 1.0, 1.2, 1.3: the
    code saves a numbered checkpoint at each of the three epochs and the
    counter is 0 at the end, because line 283 assigns [val_loss] instead of
    [min_val_loss], which stays at [math.inf]. *)
Theorem train_three_epochs_saves_each_epoch :
  let run := Toy.run Toy.slowing_slope (Toy.loss Toy.slowing_loss) 3 in
  map fst (saved (fst run))
  = ["model/model_test/checkpoint.pth.tar";
     "model/model_test/checkpoint_0001.pth.tar";
     "model/model_test/checkpoint_0002.pth.tar";
     "model/model_test/checkpoint_0003.pth.tar";
     "model/model_test/checkpoint.pth.tar"]%string /\
  exists loc,
    snd run = Ok (loc, Continue) /\
    val_loss_history loc = [Float.Fin 1; Float.Fin (6 # 5); Float.Fin (13 # 10)] /\
    stop loc = 0%nat /\
    min_val_loss loc = Float.inf.
Proof.
  vm_compute. split; [reflexivity | eexists; repeat split].
Qed.

(** C2 (code bug).  Ten configured epochs whose validation loss grows at
    every epoch: the code runs all ten epochs, saves a numbered checkpoint at
    each of them, leaves the counter at 0 and does not stop early. *)
Theorem train_worsening_loss_never_stops :
  let run := Toy.run Toy.steady_slope (Toy.loss Toy.steady_loss) 10 in
  exists loc,
    snd run = Ok (loc, Continue) /\
    val_loss_history loc
    = [Float.Fin 1; Float.Fin (6 # 5); Float.Fin (7 # 5); Float.Fin (8 # 5);
       Float.Fin (9 # 5); Float.Fin 2; Float.Fin (11 # 5); Float.Fin (12 # 5);
       Float.Fin (13 # 5); Float.Fin (14 # 5)] /\
    stop loc = 0%nat /\
    length (saved (fst run)) = 12%nat.
Proof.
  vm_compute. eexists; repeat split.
Qed.

(** * Further properties *)

(** ** [accuracy] for any tuple of ranks *)

Section AccuracyRanks.

Lemma slice_to_effective {A} (k m : Z) (l : list A) :
  Z.of_nat (length l) = m ->
  Py.slice_to k l = firstn (effective_rank m k) l.
Proof.
  intros <-. unfold Py.slice_to, effective_rank. now destruct (k <? 0)%Z.
Qed.

Lemma effective_rank_le (m k : Z) :
  (0 <= m)%Z -> (k <= m)%Z -> (effective_rank m k <= Z.to_nat m)%nat.
Proof.
  intros Hm Hk. unfold effective_rank. destruct (Z.ltb_spec k 0); lia.
Qed.

(** The result of [accuracy] whenever the largest rank is between 0 and the
    number of classes and the batch is not empty. *)
Lemma accuracy_value (output : scores) (target topk : list Z) (m : Z) :
  wf output ->
  length target = length (rows output) ->
  target <> [] ->
  Py.max topk = Ok m ->
  (0 <= m <= Z.of_nat (n_classes output))%Z ->
  accuracy output target topk
  = Ok (map (fun k => scaled_count (n_correct (effective_rank m k) output target)
                                   (length target))
            topk).
Proof.
  intros Hwf Hlen Hne Hm Hmb. unfold accuracy. rewrite Hm. simpl.
  destruct (max_spec _ _ Hm) as [_ Hle]. rewrite Forall_forall in Hle.
  unfold Torch.topk.
  replace ((m <? 0)%Z || (Z.of_nat (n_classes output) <? m)%Z) with false
    by (symmetry; apply orb_false_iff; split; apply Z.ltb_ge; lia).
  simpl. unfold Torch.expand_as.
  destruct target as [|t0 target']; [congruence|].
  rewrite Hlen, Nat.eqb_refl. simpl. rewrite <- Hlen.
  rewrite eq_transpose.
  apply for_each_ok. intros k Hk.
  rewrite (slice_to_effective k m)
    by (rewrite length_map, length_seq; lia).
  rewrite correct_k_count;
    [reflexivity | assumption | lia | apply effective_rank_le; [lia | auto]].
Qed.

(** When [accuracy] returns and when it raises. *)
Lemma accuracy_ok_inv (output : scores) (target topk : list Z) :
  Py.is_ok (accuracy output target topk) = true ->
  (exists m, Py.max topk = Ok m /\ (0 <= m <= Z.of_nat (n_classes output))%Z) /\
  target <> [] /\
  (length target = length (rows output) \/ length target = 1%nat).
Proof.
  unfold accuracy.
  destruct (Py.max topk) as [m|e] eqn:Hm; simpl; [|discriminate].
  unfold Torch.topk.
  destruct ((m <? 0)%Z || (Z.of_nat (n_classes output) <? m)%Z) eqn:Hb;
    simpl; [discriminate|].
  apply orb_false_iff in Hb. destruct Hb as [H0 HC].
  apply Z.ltb_ge in H0, HC.
  unfold Torch.expand_as.
  destruct target as [|t0 target'].
  - (* no label: [expand_as] or the first division raises *)
    cbn [length]. destruct (Nat.eqb 0 (length (rows output))); simpl; [|discriminate].
    destruct topk as [|k ks]; [discriminate Hm | simpl; discriminate].
  - destruct (Nat.eqb (length (t0 :: target')) (length (rows output))) eqn:E1.
    + intros _. apply Nat.eqb_eq in E1.
      split; [exists m; split; [reflexivity | lia]|]. split; [congruence | now left].
    + destruct target' as [|t1 target'']; [|simpl; discriminate].
      intros _.
      split; [exists m; split; [reflexivity | lia]|]. split; [congruence | now right].
Qed.

Lemma for_each_is_ok {A B} (f : A -> result B) (ks : list A) :
  (forall k, In k ks -> Py.is_ok (f k) = true) -> Py.is_ok (Py.for_each f ks) = true.
Proof.
  induction ks as [|k ks IH]; simpl; intros H; [reflexivity|].
  pose proof (H k (or_introl eq_refl)) as Hk.
  destruct (f k); [|discriminate]. simpl.
  assert (IH' : Py.is_ok (Py.for_each f ks) = true) by (apply IH; auto).
  destruct (Py.for_each f ks); [reflexivity | discriminate].
Qed.

Lemma accuracy_ok_intro (output : scores) (target topk : list Z) (m : Z) :
  Py.max topk = Ok m ->
  (0 <= m <= Z.of_nat (n_classes output))%Z ->
  target <> [] ->
  (length target = length (rows output) \/ length target = 1%nat) ->
  Py.is_ok (accuracy output target topk) = true.
Proof.
  intros Hm Hmb Hne Hlen. unfold accuracy. rewrite Hm. simpl.
  unfold Torch.topk.
  replace ((m <? 0)%Z || (Z.of_nat (n_classes output) <? m)%Z) with false
    by (symmetry; apply orb_false_iff; split; apply Z.ltb_ge; lia).
  simpl. unfold Torch.expand_as.
  destruct target as [|t0 target']; [congruence|].
  assert (Hfe : forall t, Py.is_ok
            (Py.for_each
               (fun k : Z =>
                  f <- Py.truediv 100 (length (t0 :: target')) ;;
                  Ok (inject_Z (Z.of_nat (sum_true (Py.slice_to k t))) * f))
               topk) = true).
  { intros t. apply for_each_is_ok. intros k _. reflexivity. }
  destruct (Nat.eqb (length (t0 :: target')) (length (rows output))) eqn:E1.
  - cbv beta iota. cbn [Py.bind]. apply Hfe.
  - destruct Hlen as [Hlen|Hlen]; [rewrite Hlen, Nat.eqb_refl in E1; discriminate|].
    destruct target' as [|t1 target'']; [|discriminate Hlen].
    cbv beta iota. cbn [Py.bind]. apply Hfe.
Qed.

End AccuracyRanks.

(** X1.  [accuracy] returns a result exactly when the tuple of ranks is not
    empty, its largest rank lies between 0 and the number of classes, the
    target is not empty, and the target has one label per row or one label
    in all; in every other case it raises. *)
Theorem accuracy_returns_iff (output : scores) (target topk : list Z) :
  Py.is_ok (accuracy output target topk) = true <->
  (exists m, Py.max topk = Ok m /\ (0 <= m <= Z.of_nat (n_classes output))%Z) /\
  target <> [] /\
  (length target = length (rows output) \/ length target = 1%nat).
Proof.
  split.
  - apply accuracy_ok_inv.
  - intros ((m & Hm & Hmb) & Hne & Hlen).
    exact (accuracy_ok_intro output target topk m Hm Hmb Hne Hlen).
Qed.

Section AccuracyValues.

(** The value behind every result that [accuracy] returns on a batch. *)
Lemma accuracy_ok_value (output : scores) (target topk : list Z) (res : list Q) :
  wf output ->
  length target = length (rows output) ->
  accuracy output target topk = Ok res ->
  exists m,
    Py.max topk = Ok m /\
    (0 <= m <= Z.of_nat (n_classes output))%Z /\
    target <> [] /\
    res = map (fun k => scaled_count (n_correct (effective_rank m k) output target)
                                     (length target))
              topk.
Proof.
  intros Hwf Hlen H.
  destruct (accuracy_ok_inv output target topk) as ((m & Hm & Hmb) & Hne & _).
  { now rewrite H. }
  exists m. repeat split; try assumption; try lia.
  rewrite (accuracy_value output target topk m Hwf Hlen Hne Hm Hmb) in H.
  now injection H as <-.
Qed.

Lemma In_combine_map {A B} (g : A -> B) (ks : list A) (k : A) (r : B) :
  In (k, r) (combine ks (map g ks)) -> In k ks /\ r = g k.
Proof.
  induction ks as [|a ks IH]; simpl; [contradiction|].
  intros [[= -> ->]|H]; [auto|]. destruct (IH H). auto.
Qed.

Lemma n_correct_0 (output : scores) (target : list Z) : n_correct 0 output target = O.
Proof.
  unfold n_correct, label_in_topk. simpl.
  induction (combine (rows output) target); simpl; auto.
Qed.



(** The count of correct samples does not depend on the order of the
    samples. *)
Lemma n_correct_perm (k : nat) (o1 o2 : scores) (t1 t2 : list Z) :
  Permutation (combine (rows o1) t1) (combine (rows o2) t2) ->
  n_correct k o1 t1 = n_correct k o2 t2.
Proof.
  intros HP. unfold n_correct.
  change (count (fun rl => label_in_topk k (fst rl) (snd rl)) (combine (rows o1) t1)
          = count (fun rl => label_in_topk k (fst rl) (snd rl)) (combine (rows o2) t2)).
  rewrite !count_b2n. apply Permutation_list_sum, Permutation_map, HP.
Qed.


End AccuracyValues.





(** X4.  [accuracy] does not depend on the order of the samples: two batches
    over the same classes whose (row, label) pairs are a permutation of each
    other get the same results, or raise the same exception. *)
Theorem accuracy_batch_order (o1 o2 : scores) (t1 t2 topk : list Z) :
  wf o1 -> wf o2 ->
  n_classes o1 = n_classes o2 ->
  length t1 = length (rows o1) ->
  length t2 = length (rows o2) ->
  Permutation (combine (rows o1) t1) (combine (rows o2) t2) ->
  accuracy o1 t1 topk = accuracy o2 t2 topk.
Proof.
  intros Hwf1 Hwf2 HC Hl1 Hl2 HP.
  assert (Hlen : length t1 = length t2).
  { pose proof (Permutation_length HP) as E. rewrite !length_combine in E. lia. }
  destruct (Py.max topk) as [m|e] eqn:Hm;
    [|unfold accuracy; rewrite Hm; reflexivity].
  destruct ((m <? 0)%Z || (Z.of_nat (n_classes o1) <? m)%Z) eqn:Hb.
  - unfold accuracy, Torch.topk. rewrite Hm. simpl. rewrite <- HC, Hb. reflexivity.
  - apply orb_false_iff in Hb. destruct Hb as [H0 H1]. apply Z.ltb_ge in H0, H1.
    destruct t1 as [|a t1'].
    + destruct t2; [|discriminate].
      rewrite (accuracy_empty_batch_division o1 topk m),
              (accuracy_empty_batch_division o2 topk m);
        try assumption; try lia; try reflexivity.
      * destruct (rows o2); [reflexivity | discriminate].
      * destruct (rows o1); [reflexivity | discriminate].
    + rewrite (accuracy_value o1 (a :: t1') topk m), (accuracy_value o2 t2 topk m);
        try assumption; try lia; try discriminate.
      * f_equal. apply map_ext. intros k.
        now rewrite (n_correct_perm _ o1 o2 (a :: t1') t2 HP), Hlen.
      * intros ->. discriminate.
Qed.

(** [batch3] with its first two samples exchanged. *)
Lemma accuracy_batch_order_witness :
  accuracy batch3 [1; 3; 2]%Z [1; 5]%Z
  = accuracy (mkScores 6 [ [0.7; 0.1; 0.2; 0.6; 0.5; 0.4];
                           [0.1; 0.9; 0.3; 0.2; 0.5; 0.4];
                           [0.3; 0.2; 0.1; 0.6; 0.5; 0.4] ]%Q)
             [3; 1; 2]%Z [1; 5]%Z.
Proof.
  apply accuracy_batch_order.
  - exact batch3_wf.
  - repeat constructor.
  - reflexivity.
  - reflexivity.
  - reflexivity.
  - simpl. apply perm_swap.
Defined.

(** X5.  Ranks that are not positive are not refused: when [accuracy]
    returns, the result for rank 0 is 0, and the result for a negative rank
    -j is the one of rank max(topk) - j, because [correct[:k]] then drops
    the j last rows. *)
Theorem accuracy_nonpositive_ranks
        (output : scores) (target topk : list Z) (res : list Q) :
  wf output ->
  length target = length (rows output) ->
  accuracy output target topk = Ok res ->
  exists m,
    Py.max topk = Ok m /\
    forall k r,
      In (k, r) (combine topk res) ->
      (k = 0%Z -> r == 0) /\
      ((k < 0)%Z -> r == topk_percentage (m + k) output target).
Proof.
  intros Hwf Hlen H.
  destruct (accuracy_ok_value output target topk res Hwf Hlen H)
    as (m & Hm & Hmb & Hne & ->).
  exists m. split; [exact Hm|].
  intros k r Hin. apply In_combine_map in Hin. destruct Hin as [_ ->].
  assert (Hb : length target <> O) by (destruct target; simpl; congruence).
  split.
  - intros ->. unfold effective_rank. simpl.
    rewrite n_correct_0. unfold scaled_count. simpl. apply Qmult_0_l.
  - intros Hk. unfold effective_rank.
    replace (k <? 0)%Z with true by (symmetry; apply Z.ltb_lt; lia).
    unfold scaled_count, topk_percentage. now apply percentage_eq.
Qed.

(** Ranks 5, 0 and -1 on [batch3] with the label 3 for every sample: the
    label is at rank 5, 2 and 1, so the last result is the one of rank 4. *)
Lemma accuracy_nonpositive_ranks_witness :
  exists m,
    Py.max [5; 0; -1]%Z = Ok m /\
    forall k r,
      In (k, r) (combine [5; 0; -1]%Z [300 # 3; 0 # 3; 200 # 3]) ->
      (k = 0%Z -> r == 0) /\
      ((k < 0)%Z -> r == topk_percentage (m + k) batch3 [3; 3; 3]%Z).
Proof.
  apply (accuracy_nonpositive_ranks batch3 [3; 3; 3]%Z [5; 0; -1]%Z).
  - exact batch3_wf.
  - reflexivity.
  - vm_compute. reflexivity.
Defined.

(** ** The epoch runner in eval and train mode *)

Section EvalPass.

Variable X : Type.
Variable forward : bool -> list Float.t -> X -> scores.
Variable backward : bool -> list Float.t -> X -> list Z -> Q -> list Float.t.
Variable loss_fn : LossFn.

Lemma eval_state_idem (st : PState) : eval_state (eval_state st) = eval_state st.
Proof.
  reflexivity.
Qed.

(** One batch in eval mode: the sums grow by the metrics of the batch, or the
    exception of [accuracy] ends the pass. *)
Lemma pass_batch_eval (st : PState) (acc : Sums) (i : nat) (b : Batch X) :
  pass_batch forward backward loss_fn "Eval" st acc i b
  = (eval_state st,
     if Py.is_ok (accuracy (forward false (params (model st)) (fst b)) (snd b) [1; 5]%Z)
     then Ok (mkSums (Float.add (loss acc) (batch_loss forward loss_fn (params (model st)) b))
                     (Qred (acc_top1 acc + batch_top forward (params (model st)) 0 b))
                     (Qred (acc_top5 acc + batch_top forward (params (model st)) 1 b))
                     (Some i))
     else match accuracy (forward false (params (model st)) (fst b)) (snd b) [1; 5]%Z with
          | Ok _ => Raise IndexError
          | Raise e => Raise e
          end).
Proof.
  destruct b as [x y]. unfold pass_batch, batch_top, batch_loss, set_mode. simpl.
  destruct (accuracy (forward false (params (model st)) x) y [1; 5]%Z) as [tops|e] eqn:Ea;
    [|reflexivity].
  pose proof (accuracy_length _ _ _ _ Ea) as Hl.
  destruct tops as [|a1 [|a5 [|? ?]]]; try discriminate. reflexivity.
Qed.

Lemma pass_loop_eval_ok_inv (loader : list (Batch X)) :
  forall (st : PState) (acc : Sums) (i : nat),
    Py.is_ok (snd (pass_loop forward backward loss_fn "Eval" st acc i loader)) = true ->
    Forall (accuracy_accepts forward false (params (model st))) loader.
Proof.
  induction loader as [|b rest IH]; intros st acc i; [constructor|].
  cbn [pass_loop]. rewrite pass_batch_eval.
  destruct (Py.is_ok (accuracy (forward false (params (model st)) (fst b)) (snd b)
                               [1; 5]%Z)) eqn:Eb.
  - intros H. constructor; [exact Eb|]. exact (IH _ _ _ H).
  - destruct (accuracy _ _ _); discriminate.
Qed.

Lemma pass_loop_eval_closed (loader : list (Batch X)) :
  forall (st : PState) (acc : Sums) (i : nat),
    loader <> [] ->
    Forall (accuracy_accepts forward false (params (model st))) loader ->
    exists a1 a5,
      pass_loop forward backward loss_fn "Eval" st acc i loader
      = (eval_state st,
         Ok (mkSums (fold_left Float.add
                               (map (batch_loss forward loss_fn (params (model st))) loader)
                               (loss acc))
                    a1 a5 (Some (i + length loader - 1)%nat))) /\
      a1 == acc_top1 acc + qsum (map (batch_top forward (params (model st)) 0) loader) /\
      a5 == acc_top5 acc + qsum (map (batch_top forward (params (model st)) 1) loader).
Proof.
  induction loader as [|b rest IH]; intros st acc i Hne Hall; [congruence|].
  inversion Hall as [|? ? Hb Hrest]; subst.
  cbn [pass_loop]. rewrite pass_batch_eval. unfold accuracy_accepts in Hb. rewrite Hb.
  destruct rest as [|b' rest'].
  - exists (Qred (acc_top1 acc + batch_top forward (params (model st)) 0 b)),
           (Qred (acc_top5 acc + batch_top forward (params (model st)) 1 b)).
    cbn [pass_loop map fold_left length qsum fold_right]. split; [|split].
    + repeat f_equal. lia.
    + rewrite Qred_correct. ring.
    + rewrite Qred_correct. ring.
  - destruct (IH (eval_state st)
                 (mkSums (Float.add (loss acc)
                                    (batch_loss forward loss_fn (params (model st)) b))
                         (Qred (acc_top1 acc + batch_top forward (params (model st)) 0 b))
                         (Qred (acc_top5 acc + batch_top forward (params (model st)) 1 b))
                         (Some i))
                 (S i) ltac:(discriminate) Hrest)
      as (a1 & a5 & E & H1 & H5).
    exists a1, a5. rewrite E. split; [|split].
    + rewrite eval_state_idem. cbn [params model eval_state loss map fold_left].
      replace (S i + length (b' :: rest') - 1)%nat
        with (i + length (b :: b' :: rest') - 1)%nat by (cbn [length]; lia).
      reflexivity.
    + rewrite H1. cbn [params model eval_state acc_top1 map qsum fold_right].
      rewrite Qred_correct. ring.
    + rewrite H5. cbn [params model eval_state acc_top5 map qsum fold_right].
      rewrite Qred_correct. ring.
Qed.

End EvalPass.

(** X6.  A pass in mode "Eval" returns metrics exactly when the loader
    yields at least one batch and [accuracy] accepts the predictions and
    labels of every batch (at ranks 1 and 5, in eval mode); otherwise it
    raises. *)
Theorem pass_epoch_eval_returns_iff
        (X : Type) (forward : bool -> list Float.t -> X -> scores)
        (backward : bool -> list Float.t -> X -> list Z -> Q -> list Float.t)
        (st : PState) (loader : list (Batch X)) (loss_fn : LossFn) :
  Py.is_ok (snd (pass_epoch forward backward st loader loss_fn "Eval")) = true <->
  loader <> [] /\
  Forall (accuracy_accepts forward false (params (model st))) loader.
Proof.
  split.
  - intros H. split.
    + intros ->. discriminate H.
    + apply (pass_loop_eval_ok_inv X forward backward loss_fn loader st
               (mkSums (Float.Fin 0) 0 0 None) 0%nat).
      unfold pass_epoch in H.
      destruct (pass_loop forward backward loss_fn "Eval" st _ 0 loader)
        as [st' [acc|e]]; [reflexivity | discriminate H].
  - intros [Hne Hall].
    destruct (pass_loop_eval_closed X forward backward loss_fn loader st
                (mkSums (Float.Fin 0) 0 0 None) 0%nat Hne Hall) as (a1 & a5 & E & _).
    unfold pass_epoch. rewrite E. reflexivity.
Qed.

(** X7.  The metrics of an "Eval" pass are the means over the batches: the
    sum of the batch losses, of the batch top-1 and of the batch top-5
    accuracies, each divided by the number of batches, whatever the sizes of
    the batches; the pass leaves the model in eval mode and changes nothing
    else. *)
Theorem pass_epoch_eval_average
        (X : Type) (forward : bool -> list Float.t -> X -> scores)
        (backward : bool -> list Float.t -> X -> list Z -> Q -> list Float.t)
        (st : PState) (loader : list (Batch X)) (loss_fn : LossFn) :
  loader <> [] ->
  Forall (accuracy_accepts forward false (params (model st))) loader ->
  let n := length loader in
  let ps := params (model st) in
  exists top1 top5,
    pass_epoch forward backward st loader loss_fn "Eval"
    = (eval_state st,
       Ok (Float.div_nat (fsum (map (batch_loss forward loss_fn ps) loader)) n,
           top1, top5)) /\
    top1 == qsum (map (batch_top forward ps 0) loader) / inject_Z (Z.of_nat n) /\
    top5 == qsum (map (batch_top forward ps 1) loader) / inject_Z (Z.of_nat n).
Proof.
  intros Hne Hall n ps.
  destruct (pass_loop_eval_closed X forward backward loss_fn loader st
              (mkSums (Float.Fin 0) 0 0 None) 0%nat Hne Hall) as (a1 & a5 & E & H1 & H5).
  unfold pass_epoch. rewrite E. cbn [i_batch loss acc_top1 acc_top5].
  assert (Hn : (0 + length loader - 1 + 1)%nat = n).
  { unfold n. destruct loader; [congruence | simpl; lia]. }
  rewrite Hn. do 2 eexists. split; [reflexivity|].
  cbn [acc_top1 acc_top5] in H1, H5.
  split; rewrite Qred_correct; [rewrite H1 | rewrite H5]; now rewrite Qplus_0_l.
Qed.

(** Two validation passes of the small model. *)
Lemma pass_epoch_eval_average_witness :
  exists top1 top5,
    pass_epoch Toy.forward (Toy.backward Toy.steady_slope) (Toy.pstate0 1)
               (Toy.val_loader ++ Toy.train_loader) (Toy.loss Toy.steady_loss 0) "Eval"
    = (eval_state (Toy.pstate0 1),
       Ok (Float.div_nat
             (fsum (map (batch_loss Toy.forward (Toy.loss Toy.steady_loss 0)
                                    [Float.Fin 1])
                        (Toy.val_loader ++ Toy.train_loader))) 2,
           top1, top5)) /\
    top1 == qsum (map (batch_top Toy.forward [Float.Fin 1] 0)
                      (Toy.val_loader ++ Toy.train_loader)) / inject_Z 2 /\
    top5 == qsum (map (batch_top Toy.forward [Float.Fin 1] 1)
                      (Toy.val_loader ++ Toy.train_loader)) / inject_Z 2.
Proof.
  apply (pass_epoch_eval_average unit Toy.forward (Toy.backward Toy.steady_slope)
           (Toy.pstate0 1) (Toy.val_loader ++ Toy.train_loader)
           (Toy.loss Toy.steady_loss 0)).
  - discriminate.
  - repeat constructor.
Defined.

Section EvalBatches.

Variable X : Type.
Variable forward : bool -> list Float.t -> X -> scores.

Lemma uniform_batch_accuracy (ps : list Float.t) (size : nat) (b : Batch X) :
  size <> O ->
  uniform_batch forward ps size b ->
  accuracy (forward false ps (fst b)) (snd b) [1; 5]%Z
  = Ok [scaled_count (n_correct 1 (forward false ps (fst b)) (snd b)) size;
        scaled_count (n_correct 5 (forward false ps (fst b)) (snd b)) size].
Proof.
  intros Hs (Hwf & Hrows & Hlen & H5).
  rewrite accuracy_ok; try assumption.
  - rewrite Hlen. reflexivity.
  - congruence.
  - destruct (snd b); simpl in *; congruence.
  - discriminate.
  - repeat constructor; lia.
Qed.

Lemma qsum_scaled_counts (ps : list Float.t) (size k j : nat) (loader : list (Batch X)) :
  (forall b, In b loader ->
             batch_top forward ps j b
             = scaled_count (n_correct k (forward false ps (fst b)) (snd b)) size) ->
  qsum (map (batch_top forward ps j) loader)
  == inject_Z (Z.of_nat (total_correct forward ps k loader))
     * (100 / inject_Z (Z.of_nat size)).
Proof.
  induction loader as [|b rest IH]; intros H; cbn [map qsum fold_right].
  - symmetry. apply Qmult_0_l.
  - rewrite IH by (intros; apply H; now right).
    rewrite (H b) by now left.
    change (total_correct forward ps k (b :: rest))
      with (n_correct k (forward false ps (fst b)) (snd b)
            + total_correct forward ps k rest)%nat.
    unfold scaled_count. rewrite Nat2Z.inj_add, inject_Z_plus. ring.
Qed.

Lemma mean_of_scaled (t n size : nat) :
  n <> O -> size <> O ->
  inject_Z (Z.of_nat t) * (100 / inject_Z (Z.of_nat size)) / inject_Z (Z.of_nat n)
  == 100 * inject_Z (Z.of_nat t) / inject_Z (Z.of_nat (n * size)).
Proof.
  intros Hn Hs. rewrite Nat2Z.inj_mul, inject_Z_mult.
  assert (Hnz : forall m : nat, m <> O -> ~ inject_Z (Z.of_nat m) == 0).
  { intros m Hm H. apply Hm. unfold Qeq in H. simpl in H. lia. }
  field. split; apply Hnz; assumption.
Qed.

End EvalBatches.

(** X8.  When all the batches of the loader have the same size, the top-1
    and top-5 accuracies of an "Eval" pass are the percentages of correct
    samples over the whole loader: 100 * (correct samples of all batches) /
    (number of batches * batch size). *)
Theorem pass_epoch_eval_equal_batches
        (X : Type) (forward : bool -> list Float.t -> X -> scores)
        (backward : bool -> list Float.t -> X -> list Z -> Q -> list Float.t)
        (st : PState) (loader : list (Batch X)) (loss_fn : LossFn) (size : nat) :
  size <> O ->
  loader <> [] ->
  Forall (uniform_batch forward (params (model st)) size) loader ->
  let samples := inject_Z (Z.of_nat (length loader * size)) in
  let ps := params (model st) in
  exists l top1 top5,
    pass_epoch forward backward st loader loss_fn "Eval"
    = (eval_state st, Ok (l, top1, top5)) /\
    top1 == 100 * inject_Z (Z.of_nat (total_correct forward ps 1 loader)) / samples /\
    top5 == 100 * inject_Z (Z.of_nat (total_correct forward ps 5 loader)) / samples.
Proof.
  intros Hs Hne Hall samples ps. subst samples ps.
  assert (Hacc : Forall (accuracy_accepts forward false (params (model st))) loader).
  { eapply Forall_impl; [|exact Hall]. intros b Hb. unfold accuracy_accepts.
    now rewrite (uniform_batch_accuracy X forward (params (model st)) size b Hs Hb). }
  destruct (pass_loop_eval_closed X forward backward loss_fn loader st
              (mkSums (Float.Fin 0) 0 0 None) 0%nat Hne Hacc) as (a1 & a5 & E & H1 & H5).
  unfold pass_epoch. rewrite E. cbn [i_batch loss acc_top1 acc_top5].
  assert (Hn : (0 + length loader - 1 + 1)%nat = length loader).
  { destruct loader; [congruence | simpl; lia]. }
  assert (Hl : length loader <> O) by (destruct loader; simpl; congruence).
  rewrite Hn. do 3 eexists. split; [reflexivity|].
  cbn [acc_top1 acc_top5] in H1, H5.
  rewrite Forall_forall in Hall.
  split; rewrite Qred_correct; [rewrite H1 | rewrite H5]; rewrite Qplus_0_l.
  - rewrite (qsum_scaled_counts X forward (params (model st)) size 1 0 loader).
    + now apply mean_of_scaled.
    + intros b Hb. unfold batch_top.
      now rewrite (uniform_batch_accuracy X forward (params (model st)) size b Hs (Hall b Hb)).
  - rewrite (qsum_scaled_counts X forward (params (model st)) size 5 1 loader).
    + now apply mean_of_scaled.
    + intros b Hb. unfold batch_top.
      now rewrite (uniform_batch_accuracy X forward (params (model st)) size b Hs (Hall b Hb)).
Qed.

(** Two batches of one sample: the label 1 is not the top class, the label 0
    is. *)
Lemma pass_epoch_eval_equal_batches_witness :
  exists l top1 top5,
    pass_epoch Toy.forward (Toy.backward Toy.steady_slope) (Toy.pstate0 1)
               (Toy.val_loader ++ Toy.train_loader) (Toy.loss Toy.steady_loss 0) "Eval"
    = (eval_state (Toy.pstate0 1), Ok (l, top1, top5)) /\
    top1 == 100 * inject_Z (Z.of_nat (total_correct Toy.forward [Float.Fin 1] 1
                                        (Toy.val_loader ++ Toy.train_loader)))
            / inject_Z (Z.of_nat (2 * 1)) /\
    top5 == 100 * inject_Z (Z.of_nat (total_correct Toy.forward [Float.Fin 1] 5
                                        (Toy.val_loader ++ Toy.train_loader)))
            / inject_Z (Z.of_nat (2 * 1)).
Proof.
  apply (pass_epoch_eval_equal_batches unit Toy.forward (Toy.backward Toy.steady_slope)
           (Toy.pstate0 1) (Toy.val_loader ++ Toy.train_loader)
           (Toy.loss Toy.steady_loss 0) 1).
  - discriminate.
  - discriminate.
  - repeat constructor.
Defined.

Section PassMode.

Variable X : Type.
Variable forward : bool -> list Float.t -> X -> scores.
Variable backward : bool -> list Float.t -> X -> list Z -> Q -> list Float.t.
Variable loss_fn : LossFn.

Lemma sgd_step_training (o : SGD) (m : Model) :
  training (snd (sgd_step o m)) = training m.
Proof.
  unfold sgd_step. now destruct (grad m).
Qed.

Lemma train_batch_frame (st : PState) (x : X) (y : list Z) :
  training (model (train_batch backward st x y)) = training (model st) /\
  stdout (train_batch backward st x y) = stdout st.
Proof.
  unfold train_batch.
  destruct (scaler_step _ _ _) as [[s o] m] eqn:Es.
  assert (Hm : training m = training (model st)).
  { unfold scaler_step in Es.
    destruct (grads_finite _).
    - pose proof (sgd_step_training
                    (optimizer (scaled_backward backward
                                  (mkPState (zero_grad (model st)) (optimizer st)
                                            (scaler st) (stdout st)) x y))
                    (unscale (scaler (scaled_backward backward
                                        (mkPState (zero_grad (model st)) (optimizer st)
                                                  (scaler st) (stdout st)) x y))
                             (model (scaled_backward backward
                                       (mkPState (zero_grad (model st)) (optimizer st)
                                                 (scaler st) (stdout st)) x y)))) as H.
      destruct (sgd_step _ _) as [o' m']. injection Es as _ _ <-. exact H.
    - injection Es as _ _ <-. reflexivity. }
  pose proof (sgd_step_training o m) as H.
  destruct (sgd_step o m) as [o' m']. simpl in *. split; [congruence | reflexivity].
Qed.

Lemma pass_batch_mode (mode : string) (st : PState) (acc : Sums) (i : nat) (b : Batch X) :
  mode = "Train"%string \/ mode = "Eval"%string ->
  let r := pass_batch forward backward loss_fn mode st acc i b in
  training (model (fst r)) = String.eqb mode "Train" /\ stdout (fst r) = stdout st.
Proof.
  intros [-> | ->] r; subst r; destruct b as [x y]; unfold pass_batch, set_mode;
    cbn [String.eqb Ascii.eqb Bool.eqb andb].
  - destruct (accuracy _ _ _); cbn [fst].
    + destruct (train_batch_frame
                  (mkPState (mkModel (params (model st)) (grad (model st)) true)
                            (optimizer st) (scaler st) (stdout st)) x y) as [Ht Ho].
      split; [exact Ht | exact Ho].
    + split; reflexivity.
  - destruct (accuracy _ _ _); split; reflexivity.
Qed.

Lemma pass_loop_mode (mode : string) (loader : list (Batch X)) :
  mode = "Train"%string \/ mode = "Eval"%string ->
  forall (st : PState) (acc : Sums) (i : nat),
    let r := pass_loop forward backward loss_fn mode st acc i loader in
    stdout (fst r) = stdout st /\
    (loader <> [] -> training (model (fst r)) = String.eqb mode "Train").
Proof.
  intros Hmode. induction loader as [|b rest IH]; intros st acc i; cbn [pass_loop].
  - split; [reflexivity | congruence].
  - destruct (pass_batch_mode mode st acc i b Hmode) as [Ht Ho].
    destruct (pass_batch forward backward loss_fn mode st acc i b) as [st1 [acc1|e]];
      cbn [fst] in *.
    + destruct (IH st1 acc1 (S i)) as [Ho' Ht'].
      split; [congruence|]. intros _.
      destruct rest as [|b' rest']; [exact Ht | apply Ht'; discriminate].
    + split; [exact Ho | intros _; exact Ht].
Qed.

End PassMode.

(** X9.  A pass in mode "Train" or "Eval" over at least one batch prints
    nothing and leaves the model in the mode of the pass (train mode after
    "Train", eval mode after "Eval"), also when it ends with an exception. *)
Theorem pass_epoch_leaves_mode
        (X : Type) (forward : bool -> list Float.t -> X -> scores)
        (backward : bool -> list Float.t -> X -> list Z -> Q -> list Float.t)
        (st : PState) (loader : list (Batch X)) (loss_fn : LossFn) (mode : string) :
  mode = "Train"%string \/ mode = "Eval"%string ->
  loader <> [] ->
  let run := pass_epoch forward backward st loader loss_fn mode in
  training (model (fst run)) = String.eqb mode "Train" /\
  stdout (fst run) = stdout st.
Proof.
  intros Hmode Hne run. unfold run. rewrite pass_epoch_fst.
  destruct (pass_loop_mode X forward backward loss_fn mode loader Hmode st
              (mkSums (Float.Fin 0) 0 0 None) 0%nat) as [Ho Ht].
  split; [apply Ht; exact Hne | exact Ho].
Qed.

(** A training pass of the small model, started in eval mode. *)
Lemma pass_epoch_leaves_mode_witness :
  let st := mkPState (mkModel [Float.Fin 1] None false) (mkSGD 1 0 0 None)
                     GradScaler_default [] in
  let run := pass_epoch Toy.forward (Toy.backward Toy.steady_slope) st
                        Toy.train_loader (Toy.loss Toy.steady_loss 0) "Train" in
  training (model (fst run)) = true /\ stdout (fst run) = [].
Proof.
  apply (pass_epoch_leaves_mode unit Toy.forward (Toy.backward Toy.steady_slope)
           (mkPState (mkModel [Float.Fin 1] None false) (mkSGD 1 0 0 None)
                     GradScaler_default [])
           Toy.train_loader (Toy.loss Toy.steady_loss 0) "Train").
  - left. reflexivity.
  - discriminate.
Defined.

Section TrainBatch.

Lemma map2_twice {A B} (f : A -> B -> A) (l : list A) (g : list B) :
  map2 f (map2 f l g) g = map2 (fun a b => f (f a b) b) l g.
Proof.
  revert g. induction l as [|a l IH]; intros [|b g]; simpl; try reflexivity.
  f_equal. apply IH.
Qed.

(** Plain SGD: one step moves every parameter by [- lr] times its
    gradient. *)
Lemma sgd_step_plain (o : SGD) (ps g : list Float.t) (mode : bool) :
  Qeq_bool (momentum o) 0 = true ->
  Qeq_bool (weight_decay o) 0 = true ->
  sgd_step o (mkModel ps (Some g) mode)
  = (o, mkModel (map2 (fun p gi => Float.add p (Float.mul (Float.Fin (- lr o)) gi)) ps g)
                (Some g) mode).
Proof.
  intros Hm Hw. unfold sgd_step. simpl. rewrite Hm, Hw. reflexivity.
Qed.

End TrainBatch.

(** X10.  With plain SGD (no momentum, no weight decay) and finite
    gradients, one training batch moves every parameter by twice the SGD
    step: [scaler.step] applies [- lr * g], and the [model_optimizer.step()]
    that follows applies it again, where [g] is the gradient of the scaled
    loss divided by the scale factor. *)
Theorem train_batch_steps_twice
        (X : Type) (backward : bool -> list Float.t -> X -> list Z -> Q -> list Float.t)
        (st : PState) (x : X) (y : list Z) :
  let o := optimizer st in
  let g := map (Float.mul (Float.Fin (/ scale_factor (scaler st))))
               (backward (training (model st)) (params (model st)) x y
                         (scale_factor (scaler st))) in
  Qeq_bool (momentum o) 0 = true ->
  Qeq_bool (weight_decay o) 0 = true ->
  forallb Float.is_finite g = true ->
  params (model (train_batch backward st x y))
  = map2 (fun p gi =>
            Float.add (Float.add p (Float.mul (Float.Fin (- lr o)) gi))
                      (Float.mul (Float.Fin (- lr o)) gi))
         (params (model st)) g /\
  grad (model (train_batch backward st x y)) = Some g.
Proof.
  intros o g Hm Hw Hfin. subst o.
  unfold train_batch, scaled_backward, zero_grad, scaler_step, unscale, grads_finite.
  cbn [model optimizer scaler stdout params grad training option_map].
  fold g. rewrite Hfin.
  rewrite (sgd_step_plain (optimizer st) (params (model st)) g _ Hm Hw).
  rewrite (sgd_step_plain (optimizer st) _ g _ Hm Hw).
  cbn [model params grad]. rewrite map2_twice. split; reflexivity.
Qed.

(** One training batch of the small model: the gradient is -1/10, the
    learning rate 1, and the parameter goes from 1 to 6/5. *)
Lemma train_batch_steps_twice_witness :
  params (model (train_batch (Toy.backward Toy.steady_slope) (Toy.pstate0 1) tt [0%Z]))
  = map2 (fun p gi =>
            Float.add (Float.add p (Float.mul (Float.Fin (- (1))) gi))
                      (Float.mul (Float.Fin (- (1))) gi))
         [Float.Fin 1] [Float.Fin (-1 # 10)] /\
  grad (model (train_batch (Toy.backward Toy.steady_slope) (Toy.pstate0 1) tt [0%Z]))
  = Some [Float.Fin (-1 # 10)].
Proof.
  apply (train_batch_steps_twice unit (Toy.backward Toy.steady_slope)
           (Toy.pstate0 1) tt [0%Z]); reflexivity.
Defined.

(** ** The orchestrator: failures and telemetry *)

Section TrainEffects.

Variable X : Type.
Variable forward : bool -> list Float.t -> X -> scores.
Variable backward : bool -> list Float.t -> X -> list Z -> Q -> list Float.t.

(** The files an epoch saves are numbered checkpoints, also when it raises. *)
Lemma epoch_body_saved_numbered (args : Args) (loss_fn : LossFn)
      (train_loader val_loader : list (Batch X))
      (t : TState) (loc : Locals) (epoch : nat) :
  exists more,
    saved (fst (epoch_body forward backward args loss_fn train_loader val_loader
                           t loc epoch))
    = saved t ++ more /\
    Forall (fun f => exists n, fst f = numbered_path args n) more.
Proof.
  unfold epoch_body.
  destruct (pass_epoch forward backward _ train_loader loss_fn "Train")
    as [st1 [[[train_loss t1] t5]|e]];
    [|exists []; simpl; rewrite app_nil_r; auto].
  destruct (pass_epoch forward backward st1 val_loader loss_fn "Eval")
    as [st2 [[[val_loss v1] v5]|e]];
    [|exists []; simpl; rewrite app_nil_r; auto].
  destruct (scheduler_step _ val_loss _) as [sch o].
  cbn [min_val_loss stop].
  destruct (Float.leb val_loss (min_val_loss loc)).
  - eexists. simpl. split; [reflexivity|]. constructor; [|constructor].
    simpl. eauto.
  - destruct (Nat.ltb 5 (stop loc + 1)); exists []; simpl; rewrite app_nil_r; auto.
Qed.

Lemma epoch_loop_saved_numbered (args : Args) (loss_fn : LossFn)
      (train_loader val_loader : list (Batch X)) (range : list nat) :
  forall (t : TState) (loc : Locals),
  exists more,
    saved (fst (epoch_loop forward backward args loss_fn train_loader val_loader
                           t loc range))
    = saved t ++ more /\
    Forall (fun f => exists n, fst f = numbered_path args n) more.
Proof.
  induction range as [|epoch rest IH]; intros t loc; simpl.
  - exists []. rewrite app_nil_r. auto.
  - destruct (epoch_body_saved_numbered args loss_fn train_loader val_loader t loc epoch)
      as (more1 & E1 & F1).
    destruct (epoch_body forward backward args loss_fn train_loader val_loader
                         t loc epoch) as [t1 [[loc1 [|]]|e]]; simpl in *; eauto.
    destruct (IH t1 loc1) as (more2 & E2 & F2).
    exists (more1 ++ more2). rewrite E2, E1, app_assoc. split; [reflexivity|].
    apply Forall_app. auto.
Qed.





End TrainEffects.

(** X11.  When a call of [train] ends with an exception, the file
    [checkpoint.pth.tar] still holds the model the call was given: it was
    written once, on entry, and every file saved after it is a numbered
    checkpoint. *)
Theorem train_failure_keeps_initial_checkpoint
        (X : Type) (forward : bool -> list Float.t -> X -> scores)
        (backward : bool -> list Float.t -> X -> list Z -> Q -> list Float.t)
        (CrossEntropyLS : Q -> LossFn)
        (args : Args) (m : Model) (train_loader val_loader : list (Batch X))
        (e : Py.exn) :
  let run := train forward backward CrossEntropyLS args m train_loader val_loader in
  snd run = Raise e ->
  exists more,
    saved (fst run) = (latest_path args, params m) :: more /\
    Forall (fun f => fst f <> latest_path args) more.
Proof.
  intros run. unfold run, train.
  match goal with
  | |- context [epoch_loop _ _ _ ?f ?tl ?vl ?t ?loc ?r] =>
      destruct (epoch_loop_saved_numbered X forward backward args f tl vl r t loc)
        as (more & E & F);
      destruct (epoch_loop forward backward args f tl vl t loc r) as [t1 [end_of_loop|e1]]
  end; simpl in *; [discriminate|].
  intros _. exists more. split; [exact E|].
  eapply Forall_impl; [|exact F]. intros f [n ->]. apply numbered_path_not_latest.
Qed.

(** The small model with a validation loader that yields no batch: the
    first epoch trains, then the validation pass raises. *)
Lemma train_failure_keeps_initial_checkpoint_witness :
  exists more,
    saved (fst (train Toy.forward (Toy.backward Toy.steady_slope)
                      (Toy.loss Toy.steady_loss) (Toy.args 3) (Toy.model0 (8 # 10))
                      Toy.train_loader []))
    = (latest_path (Toy.args 3), [Float.Fin (8 # 10)]) :: more /\
    Forall (fun f => fst f <> latest_path (Toy.args 3)) more.
Proof.
  apply (train_failure_keeps_initial_checkpoint unit Toy.forward
           (Toy.backward Toy.steady_slope) (Toy.loss Toy.steady_loss) (Toy.args 3)
           (Toy.model0 (8 # 10)) Toy.train_loader []
           (UnboundLocalError "i_batch")).
  vm_compute. reflexivity.
Defined.

(** X12.  With at least one configured epoch and a training loader that
    yields no batch, [train] raises the UnboundLocalError of [pass_epoch]
    in its first epoch: only the entry checkpoint has been saved, and
    nothing was sent to the writer. *)
Theorem train_empty_train_loader
        (X : Type) (forward : bool -> list Float.t -> X -> scores)
        (backward : bool -> list Float.t -> X -> list Z -> Q -> list Float.t)
        (CrossEntropyLS : Q -> LossFn)
        (args : Args) (m : Model) (val_loader : list (Batch X)) :
  (0 < epochs args)%Z ->
  let run := train forward backward CrossEntropyLS args m [] val_loader in
  snd run = Raise (UnboundLocalError "i_batch") /\
  saved (fst run) = [(latest_path args, params m)] /\
  writer (fst run) = [] /\
  model (pstate (fst run)) = m.
Proof.
  intros Hpos run. unfold run, train.
  destruct (Z.to_nat (epochs args)) as [|n] eqn:En; [lia|].
  simpl. repeat split.
Qed.

(** Three configured epochs, no training batch. *)
Lemma train_empty_train_loader_witness :
  let run := train Toy.forward (Toy.backward Toy.steady_slope)
                   (Toy.loss Toy.steady_loss) (Toy.args 3) (Toy.model0 (8 # 10))
                   [] Toy.val_loader in
  snd run = Raise (UnboundLocalError "i_batch") /\
  saved (fst run) = [(latest_path (Toy.args 3), [Float.Fin (8 # 10)])] /\
  writer (fst run) = [] /\
  model (pstate (fst run)) = Toy.model0 (8 # 10).
Proof.
  apply (train_empty_train_loader unit Toy.forward (Toy.backward Toy.steady_slope)
           (Toy.loss Toy.steady_loss) (Toy.args 3) (Toy.model0 (8 # 10)) Toy.val_loader).
  reflexivity.
Defined.


(** ** [save_checkpoint] *)

(** X15.  [save_checkpoint] always writes the state under [filename] and
    touches no other file; asked to keep the best model, it then raises a
    NameError, because [train.py] never imports [shutil]: the copy to
    [model_best.pth.tar] is never made. *)
Theorem save_checkpoint_never_copies
        (A : Type) (fs : Files A) (state : A) (is_best : bool) (filename : string) :
  let run := save_checkpoint fs state is_best filename in
  fst run filename = Some state /\
  (forall p, p <> filename -> fst run p = fs p) /\
  snd run = (if is_best then Some (name_not_defined "shutil") else None).
Proof.
  intros run. unfold run, save_checkpoint.
  change (lookup_global "shutil") with (Some (name_not_defined "shutil")).
  destruct is_best; cbn [fst snd]; unfold write_file;
    (split; [now rewrite String.eqb_refl|]);
    (split; [|reflexivity]);
    intros p Hp; apply String.eqb_neq in Hp; now rewrite Hp.
Qed.
